(** * GameTracker: the game-library routes and the user model

    A shallow embedding of [backend/routes/games.js] (the library routes)
    and of the user model that file is shipped with (the [gameEntrySchema],
    [updateStats], [hasGame], [getGame]), followed by the properties of the
    library that the specification states.

    Conventions of the embedding.
    - A JavaScript number is an exact number: [Z] where the code handles
      integers (game ids, timestamps in milliseconds, the result of
      [parseInt]) and [Q] where fractions occur (ratings, averages).
      Rounding errors of IEEE doubles are not modelled.
    - A key of a request body is [Absent] ([undefined]), [Null] or a
      [Value] of the base type its schema declares.
    - A string-valued enumeration stays a string, as in the source.
    - [Date.now()] / [new Date()] is the argument [now] of a handler.
    - The persisted user document is the state; a handler maps it to a
      response and the document after [save()].  The listing route never
      saves: it works on the in-memory document [req.user], whose library
      array lives in a small store of arrays so that aliasing shows. *)

From Stdlib Require Import List ZArith QArith Qround String Ascii Bool Lia Lqa.
From Stdlib Require Import Permutation Sorted.
From Stdlib Require OrdersEx.
From stdpp Require Import gmap.
Import ListNotations.

Local Open Scope string_scope.

(** ** Data model (gameEntrySchema, userSchema) *)

Inductive field (A : Type) : Type :=
| Absent
| Null
| Value (a : A).
Arguments Absent {A}.
Arguments Null {A}.
Arguments Value {A} a.

Record Genre := {
  genre_id : field Z;
  genre_name : field string
}.

Record PlatformInfo := {
  platform_id : field Z;
  platform_name : field string
}.

Record Platform := {
  platform : field PlatformInfo
}.

Record GameEntry := {
  gameId : Z;
  name : string;
  background_image : option string;
  released : option string;
  rating : option Q;
  platforms : list Platform;
  genres : list Genre;
  status : string;
  userRating : option Q;
  dateAdded : Z;
  dateCompleted : option Z;
  notes : string
}.

Record Stats := {
  totalGames : nat;
  completedGames : nat;
  averageRating : Q
}.

Record User := {
  gameLibrary : list GameEntry;
  stats : Stats
}.

(** A freshly registered user: the schema defaults. *)
Definition newUser : User :=
  {| gameLibrary := [];
     stats := {| totalGames := 0; completedGames := 0; averageRating := 0%Q |} |}.

(** ** Request validation (addGameSchema, updateGameSchema) *)

Module Joi.

Inductive PathSeg :=
| Key (k : string)
| Idx (i : nat).

Inductive ErrorType :=
| any_required
| any_only
| number_base
| number_min
| number_max
| string_base
| string_empty
| string_max
| array_base
| object_base
| object_unknown.

(** [error.details[0]]: validation stops at the first failure. *)
Record ValidationError := {
  path : list PathSeg;
  type : ErrorType
}.

Definition fail (p : list PathSeg) (t : ErrorType) : option ValidationError :=
  Some {| path := p; type := t |}.

(** The first error of two checks run in sequence. *)
Definition andThen (r1 r2 : option ValidationError) : option ValidationError :=
  match r1 with
  | Some e => Some e
  | None => r2
  end.

(** [Joi.number()] *)
Definition number (p : list PathSeg) (v : field Z) : option ValidationError :=
  match v with
  | Absent => None
  | Null => fail p number_base
  | Value _ => None
  end.

(** [Joi.number().required()] *)
Definition number_required (p : list PathSeg) (v : field Z) : option ValidationError :=
  match v with
  | Absent => fail p any_required
  | Null => fail p number_base
  | Value _ => None
  end.

(** [Joi.number().allow(null)] *)
Definition number_allow_null (p : list PathSeg) (v : field Q) : option ValidationError :=
  None.

(** [Joi.number().min(lo).max(hi).allow(null)] *)
Definition number_min_max_allow_null (lo hi : Q) (p : list PathSeg) (v : field Q)
  : option ValidationError :=
  match v with
  | Absent => None
  | Null => None
  | Value x =>
      if negb (Qle_bool lo x) then fail p number_min
      else if negb (Qle_bool x hi) then fail p number_max
      else None
  end.

(** [Joi.string()]: the empty string is refused unless allowed. *)
Definition str (p : list PathSeg) (v : field string) : option ValidationError :=
  match v with
  | Absent => None
  | Null => fail p string_base
  | Value s => if s =? EmptyString then fail p string_empty else None
  end.

(** [Joi.string().required()] *)
Definition string_required (p : list PathSeg) (v : field string) : option ValidationError :=
  match v with
  | Absent => fail p any_required
  | Null => fail p string_base
  | Value s => if s =? EmptyString then fail p string_empty else None
  end.

(** [Joi.string().allow(null)] *)
Definition string_allow_null (p : list PathSeg) (v : field string) : option ValidationError :=
  match v with
  | Absent => None
  | Null => None
  | Value s => if s =? EmptyString then fail p string_empty else None
  end.

(** [Joi.string().max(n).allow('')] *)
Definition string_max_allow_empty (n : nat) (p : list PathSeg) (v : field string)
  : option ValidationError :=
  match v with
  | Absent => None
  | Null => fail p string_base
  | Value s =>
      if s =? EmptyString then None
      else if (n <? String.length s)%nat then fail p string_max
      else None
  end.

(** [Joi.string().valid(...)]: only the listed values pass. *)
Definition string_valid (allowed : list string) (p : list PathSeg) (v : field string)
  : option ValidationError :=
  match v with
  | Absent => None
  | Null => fail p any_only
  | Value s => if existsb (String.eqb s) allowed then None else fail p any_only
  end.

(** [Joi.string().valid(...).required()] *)
Definition string_valid_required (allowed : list string) (p : list PathSeg) (v : field string)
  : option ValidationError :=
  match v with
  | Absent => fail p any_required
  | Null => fail p any_only
  | Value s => if existsb (String.eqb s) allowed then None else fail p any_only
  end.

(** [Joi.array().items(item)]: items are checked in index order. *)
Fixpoint items {A : Type} (item : list PathSeg -> A -> option ValidationError)
         (p : list PathSeg) (i : nat) (xs : list A) : option ValidationError :=
  match xs with
  | [] => None
  | x :: rest => andThen (item (p ++ [Idx i])%list x) (items item p (S i) rest)
  end.

Definition array {A : Type} (item : list PathSeg -> A -> option ValidationError)
           (p : list PathSeg) (v : field (list A)) : option ValidationError :=
  match v with
  | Absent => None
  | Null => fail p array_base
  | Value xs => items item p 0 xs
  end.

(** Keys that the schema does not declare are refused, after the
    declared ones have been checked. *)
Definition unknown (keys : list string) : option ValidationError :=
  match keys with
  | [] => None
  | k :: _ => fail [Key k] object_unknown
  end.

End Joi.

Definition statuses : list string :=
  ["playing"; "completed"; "dropped"; "plan-to-play"].

(** [req.body] of POST /library. [add_unknown] lists the keys of the body
    that [addGameSchema] does not declare. *)
Record AddGameBody := {
  add_gameId : field Z;
  add_name : field string;
  add_background_image : field string;
  add_released : field string;
  add_rating : field Q;
  add_platforms : field (list Platform);
  add_genres : field (list Genre);
  add_status : field string;
  add_unknown : list string
}.

(** [req.body] of PUT /library/:gameId. *)
Record UpdateGameBody := {
  upd_status : field string;
  upd_userRating : field Q;
  upd_notes : field string;
  upd_unknown : list string
}.

Definition platformInfoSchema (p : list Joi.PathSeg) (v : PlatformInfo)
  : option Joi.ValidationError :=
  Joi.andThen (Joi.number (p ++ [Joi.Key "id"])%list (platform_id v))
              (Joi.str (p ++ [Joi.Key "name"])%list (platform_name v)).

Definition platformSchema (p : list Joi.PathSeg) (v : Platform)
  : option Joi.ValidationError :=
  match platform v with
  | Absent => None
  | Null => Joi.fail (p ++ [Joi.Key "platform"])%list Joi.object_base
  | Value info => platformInfoSchema (p ++ [Joi.Key "platform"])%list info
  end.

Definition genreSchema (p : list Joi.PathSeg) (v : Genre) : option Joi.ValidationError :=
  Joi.andThen (Joi.number (p ++ [Joi.Key "id"])%list (genre_id v))
              (Joi.str (p ++ [Joi.Key "name"])%list (genre_name v)).

(** [addGameSchema.validate(req.body).error] *)
Definition addGameSchema (b : AddGameBody) : option Joi.ValidationError :=
  Joi.andThen (Joi.number_required [Joi.Key "gameId"] (add_gameId b))
  (Joi.andThen (Joi.string_required [Joi.Key "name"] (add_name b))
  (Joi.andThen (Joi.string_allow_null [Joi.Key "background_image"] (add_background_image b))
  (Joi.andThen (Joi.string_allow_null [Joi.Key "released"] (add_released b))
  (Joi.andThen (Joi.number_allow_null [Joi.Key "rating"] (add_rating b))
  (Joi.andThen (Joi.array platformSchema [Joi.Key "platforms"] (add_platforms b))
  (Joi.andThen (Joi.array genreSchema [Joi.Key "genres"] (add_genres b))
  (Joi.andThen (Joi.string_valid_required statuses [Joi.Key "status"] (add_status b))
               (Joi.unknown (add_unknown b))))))))).

(** [updateGameSchema.validate(req.body).error] *)
Definition updateGameSchema (b : UpdateGameBody) : option Joi.ValidationError :=
  Joi.andThen (Joi.string_valid statuses [Joi.Key "status"] (upd_status b))
  (Joi.andThen (Joi.number_min_max_allow_null 1 10 [Joi.Key "userRating"] (upd_userRating b))
  (Joi.andThen (Joi.string_max_allow_empty 500 [Joi.Key "notes"] (upd_notes b))
               (Joi.unknown (upd_unknown b)))).

(** ** The user model: updateStats, hasGame, getGame *)

(** [Math.round]: the nearest integer, halves towards plus infinity. *)
Definition Math_round (x : Q) : Z := Qfloor (x + (1 # 2))%Q.

(** A nullable number used in arithmetic: [null] counts as 0. This is also
    the value of [x || 0]. *)
Definition toNumber (x : option Q) : Q :=
  match x with
  | Some q => q
  | None => 0%Q
  end.

Definition notNull {A : Type} (x : option A) : bool :=
  match x with
  | Some _ => true
  | None => false
  end.

Definition updateStats (this : User) : User :=
  let completed := List.filter (fun game => status game =? "completed") (gameLibrary this) in
  let ratedGames := List.filter (fun game => notNull (userRating game)) completed in
  {| gameLibrary := gameLibrary this;
     stats :=
       {| totalGames := length (gameLibrary this);
          completedGames := length completed;
          averageRating :=
            if (0 <? length ratedGames)%nat then
              let totalRating :=
                fold_left (fun sum game => sum + toNumber (userRating game))%Q ratedGames 0%Q in
              (inject_Z (Math_round
                           ((totalRating / inject_Z (Z.of_nat (length ratedGames))) * 10)%Q)
               / 10)%Q
            else 0%Q |} |}.

(** The result of [parseInt] on a path parameter. *)
Inductive ParsedInt :=
| NaN
| Int (z : Z).

(** [game.gameId === gameId] for a parsed path parameter. *)
Definition sameId (stored : Z) (gameId : ParsedInt) : bool :=
  match gameId with
  | NaN => false
  | Int z => (stored =? z)%Z
  end.

Definition hasGame (this : User) (id : Z) : bool :=
  existsb (fun game => (gameId game =? id)%Z) (gameLibrary this).

Definition getGame (this : User) (id : ParsedInt) : option GameEntry :=
  find (fun game => sameId (gameId game) id) (gameLibrary this).

(** ** Responses *)

Inductive Message :=
| Text (s : string)
| JoiMessage (e : Joi.ValidationError).

Inductive Json :=
| JMessage (message : Message)
| JMessageGame (message : Message) (game : option GameEntry)
| JGames (games : list GameEntry).

Record Response := {
  statusCode : Z;
  json : Json
}.

Definition respond (code : Z) (j : Json) : Response :=
  {| statusCode := code; json := j |}.

(** ** Array primitives used by the routes *)

(** [arr.findIndex(p)], [None] for -1. *)
Fixpoint findIndex {A : Type} (p : A -> bool) (arr : list A) : option nat :=
  match arr with
  | [] => None
  | x :: rest => if p x then Some 0%nat else option_map S (findIndex p rest)
  end.

(** [arr.splice(start, 1)] for an index inside the array. *)
Definition splice1 {A : Type} (start : nat) (arr : list A) : list A :=
  (firstn start arr ++ skipn (S start) arr)%list.

(** Mutation through the reference that [find] returned: the first element
    that satisfies [p] is replaced by [f] of it. *)
Fixpoint mutateFound {A : Type} (p : A -> bool) (f : A -> A) (arr : list A) : list A :=
  match arr with
  | [] => []
  | x :: rest => if p x then f x :: rest else x :: mutateFound p f rest
  end.

(** [Array.prototype.sort(comparefn)]: a stable sort. [insert] puts an
    element in front of the first one it does not come after, so equal
    elements keep their order. *)
Fixpoint insert {A : Type} (comparefn : A -> A -> Q) (x : A) (sorted : list A) : list A :=
  match sorted with
  | [] => [x]
  | y :: rest =>
      if Qle_bool (comparefn x y) 0%Q then x :: y :: rest
      else y :: insert comparefn x rest
  end.

Definition Array_sort {A : Type} (comparefn : A -> A -> Q) (arr : list A) : list A :=
  fold_right (insert comparefn) [] arr.

(** ** Field assignment on a library entry *)

Definition set_status (v : string) (g : GameEntry) : GameEntry :=
  {| gameId := gameId g; name := name g; background_image := background_image g;
     released := released g; rating := rating g; platforms := platforms g;
     genres := genres g; status := v; userRating := userRating g;
     dateAdded := dateAdded g; dateCompleted := dateCompleted g; notes := notes g |}.

Definition set_userRating (v : option Q) (g : GameEntry) : GameEntry :=
  {| gameId := gameId g; name := name g; background_image := background_image g;
     released := released g; rating := rating g; platforms := platforms g;
     genres := genres g; status := status g; userRating := v;
     dateAdded := dateAdded g; dateCompleted := dateCompleted g; notes := notes g |}.

Definition set_notes (v : string) (g : GameEntry) : GameEntry :=
  {| gameId := gameId g; name := name g; background_image := background_image g;
     released := released g; rating := rating g; platforms := platforms g;
     genres := genres g; status := status g; userRating := userRating g;
     dateAdded := dateAdded g; dateCompleted := dateCompleted g; notes := v |}.

Definition set_dateCompleted (v : option Z) (g : GameEntry) : GameEntry :=
  {| gameId := gameId g; name := name g; background_image := background_image g;
     released := released g; rating := rating g; platforms := platforms g;
     genres := genres g; status := status g; userRating := userRating g;
     dateAdded := dateAdded g; dateCompleted := v; notes := notes g |}.

Definition set_gameLibrary (v : list GameEntry) (u : User) : User :=
  {| gameLibrary := v; stats := stats u |}.

(** A nullable key of a body as the stored value: [undefined] takes the
    schema default [null]. *)
Definition nullable {A : Type} (v : field A) : option A :=
  match v with
  | Value a => Some a
  | _ => None
  end.

(** An array key of a body as the stored value: absent means empty. *)
Definition arrayOf {A : Type} (v : field (list A)) : list A :=
  match v with
  | Value xs => xs
  | _ => []
  end.

(** [updateData.status === 'completed'] *)
Definition isValue (v : field string) (s : string) : bool :=
  match v with
  | Value x => x =? s
  | _ => false
  end.

(** ** The mutating routes *)

(** The subdocument that [gameLibrary.push(gameData)] creates: the keys of
    the body, and the schema defaults for the rest. *)
Definition castEntry (now : Z) (id : Z) (nm st : string) (gameData : AddGameBody) : GameEntry :=
  {| gameId := id;
     name := nm;
     background_image := nullable (add_background_image gameData);
     released := nullable (add_released gameData);
     rating := nullable (add_rating gameData);
     platforms := arrayOf (add_platforms gameData);
     genres := arrayOf (add_genres gameData);
     status := st;
     userRating := None;
     dateAdded := now;
     dateCompleted := None;
     notes := EmptyString |}.

(** POST /api/games/library. A body that passed validation has its three
    required keys; without them [save()] would refuse the document and the
    handler would answer 500. *)
Definition postLibrary (now : Z) (body : AddGameBody) (user : User) : Response * User :=
  match addGameSchema body with
  | Some error => (respond 400 (JMessage (JoiMessage error)), user)
  | None =>
      let gameData := body in
      match add_gameId gameData, add_name gameData, add_status gameData with
      | Value id, Value nm, Value st =>
          if hasGame user id then
            (respond 400 (JMessage (Text "Game already in library")), user)
          else
            let user1 :=
              set_gameLibrary (gameLibrary user ++ [castEntry now id nm st gameData])%list user in
            let user2 := updateStats user1 in
            (respond 201
               (JMessageGame (Text "Game added to library")
                  (nth_error (gameLibrary user2) (length (gameLibrary user2) - 1))),
             user2)
      | _, _, _ => (respond 500 (JMessage (Text "Server error")), user)
      end
  end.

(** The loop over [Object.keys(updateData)]: every key of the body whose
    value is not [undefined] is assigned to the entry. A [null] status or
    [null] notes never gets here: [updateGameSchema] refuses them. *)
Definition assignKeys (updateData : UpdateGameBody) (game : GameEntry) : GameEntry :=
  let game1 :=
    match upd_status updateData with
    | Value s => set_status s game
    | _ => game
    end in
  let game2 :=
    match upd_userRating updateData with
    | Value r => set_userRating (Some r) game1
    | Null => set_userRating None game1
    | Absent => game1
    end in
  match upd_notes updateData with
  | Value n => set_notes n game2
  | _ => game2
  end.

(** The completion-date statement that follows the loop; [game] is the
    entry as the loop left it. *)
Definition completionDate (now : Z) (updateData : UpdateGameBody) (game : GameEntry) : GameEntry :=
  if isValue (upd_status updateData) "completed" && negb (status game =? "completed") then
    set_dateCompleted (Some now) game
  else if negb (isValue (upd_status updateData) "completed") then
    set_dateCompleted None game
  else game.

Definition updateEntry (now : Z) (updateData : UpdateGameBody) (game : GameEntry) : GameEntry :=
  completionDate now updateData (assignKeys updateData game).

(** PUT /api/games/library/:gameId. [gameId'] is the local constant
    [gameId = parseInt(req.params.gameId)]. *)
Definition putLibrary (now : Z) (gameId' : ParsedInt) (body : UpdateGameBody) (user : User)
  : Response * User :=
  match updateGameSchema body with
  | Some error => (respond 400 (JMessage (JoiMessage error)), user)
  | None =>
      let updateData := body in
      match getGame user gameId' with
      | None => (respond 404 (JMessage (Text "Game not found in library")), user)
      | Some game =>
          let game' := updateEntry now updateData game in
          let user1 :=
            set_gameLibrary
              (mutateFound (fun g => sameId (gameId g) gameId')
                           (updateEntry now updateData) (gameLibrary user)) user in
          let user2 := updateStats user1 in
          (respond 200 (JMessageGame (Text "Game updated successfully") (Some game')), user2)
      end
  end.

(** DELETE /api/games/library/:gameId *)
Definition deleteLibrary (gameId' : ParsedInt) (user : User) : Response * User :=
  match findIndex (fun game => sameId (gameId game) gameId') (gameLibrary user) with
  | None => (respond 404 (JMessage (Text "Game not found in library")), user)
  | Some gameIndex =>
      let user1 := set_gameLibrary (splice1 gameIndex (gameLibrary user)) user in
      let user2 := updateStats user1 in
      (respond 200 (JMessage (Text "Game removed from library")), user2)
  end.

(** A request to one of the three mutating routes, and the arrival time. *)
Inductive Request :=
| Add (body : AddGameBody)
| Update (id : ParsedInt) (body : UpdateGameBody)
| Remove (id : ParsedInt).

Definition handle (now : Z) (req : Request) (user : User) : Response * User :=
  match req with
  | Add body => postLibrary now body user
  | Update id body => putLibrary now id body user
  | Remove id => deleteLibrary id user
  end.

(** The document after a sequence of timed requests. *)
Fixpoint run (reqs : list (Z * Request)) (user : User) : User :=
  match reqs with
  | [] => user
  | (now, req) :: rest => run rest (snd (handle now req user))
  end.

(** A response that reports a performed mutation: 200 or 201. *)
Definition succeeded (r : Response) : bool :=
  (statusCode r =? 200)%Z || (statusCode r =? 201)%Z.

(** ** The listing route *)

Record Query := {
  q_status : option string;
  q_sortBy : option string;
  q_order : option string
}.

(** [if (status)]: a missing and an empty parameter are both falsy. *)
Definition truthy (status : option string) : bool :=
  match status with
  | Some s => negb (s =? EmptyString)
  | None => false
  end.

(** [game.status === status] for a query parameter. *)
Definition hasStatus (status' : option string) (game : GameEntry) : bool :=
  match status' with
  | Some s => status game =? s
  | None => false
  end.

(** [new Date(d || 0) - ...]: a missing date counts as the epoch. *)
Definition timeOf (d : option Z) : Z :=
  match d with
  | Some t => t
  | None => 0%Z
  end.

Section Comparator.

(** [String.prototype.localeCompare], which the host's collation decides. *)
Variable localeCompare : string -> string -> Z.

(** The callback given to [games.sort]. *)
Definition comparator (sortBy order : string) (a b : GameEntry) : Q :=
  let comparison :=
    if sortBy =? "name" then inject_Z (localeCompare (name a) (name b))
    else if sortBy =? "rating" then (toNumber (userRating a) - toNumber (userRating b))%Q
    else if sortBy =? "dateAdded" then inject_Z (dateAdded a - dateAdded b)
    else if sortBy =? "dateCompleted" then
      inject_Z (timeOf (dateCompleted a) - timeOf (dateCompleted b))
    else inject_Z (dateAdded a - dateAdded b) in
  if order =? "asc" then comparison else (- comparison)%Q.

End Comparator.

(** Arrays are objects: a variable holds a reference into the store. *)
Abbreviation loc := positive.
Abbreviation Store := (gmap positive (list GameEntry)).

(** [arr.filter(p)] allocates a new array. *)
Definition Array_filter (p : GameEntry -> bool) (arr : loc) (h : Store) : option (loc * Store) :=
  xs ← h !! arr;
  let r := fresh (dom h) in
  Some (r, <[r := List.filter p xs]> h).

(** [arr.sort(comparefn)] reorders the array it is called on. *)
Definition Array_sort_in_place (comparefn : GameEntry -> GameEntry -> Q) (arr : loc) (h : Store)
  : option Store :=
  xs ← h !! arr;
  Some (<[arr := Array_sort comparefn xs]> h).

(** GET /api/games/library. [gameLibrary] is the reference held by
    [req.user.gameLibrary] and [status'] the query parameter [status];
    the result is the response and the store when the handler returns. *)
Definition getLibrary (localeCompare : string -> string -> Z) (query : Query)
           (gameLibrary : loc) (h : Store) : option (Response * Store) :=
  let status' := q_status query in
  let sortBy := default "dateAdded" (q_sortBy query) in
  let order := default "desc" (q_order query) in
  '(games, h1) ←
     (if truthy status' then
        Array_filter (fun game => hasStatus status' game) gameLibrary h
      else Some (gameLibrary, h));
  h2 ← Array_sort_in_place (comparator localeCompare sortBy order) games h1;
  sorted ← h2 !! games;
  Some (respond 200 (JGames sorted), h2).

(** ** Vocabulary of the specification *)

(** The ratings the average is taken over: the user ratings of the entries
    that are completed and rated, in library order. *)
Fixpoint completedRatings (lib : list GameEntry) : list Q :=
  match lib with
  | [] => []
  | g :: rest =>
      if status g =? "completed" then
        match userRating g with
        | Some r => r :: completedRatings rest
        | None => completedRatings rest
        end
      else completedRatings rest
  end.

Definition Qsum (qs : list Q) : Q := fold_right Qplus 0%Q qs.

Definition mean (qs : list Q) : Q :=
  (Qsum qs / inject_Z (Z.of_nat (length qs)))%Q.

(** [r] is [m] rounded to one decimal place: a whole number of tenths at
    distance at most one twentieth, the upper one when two are as near. *)
Definition roundedToOneDecimal (m r : Q) : Prop :=
  (exists k : Z, r == inject_Z k / 10)%Q /\ (r - (1 # 20) <= m)%Q /\ (m < r + (1 # 20))%Q.

(** The stats that belong to a library. *)
Definition statsOf (lib : list GameEntry) (s : Stats) : Prop :=
  totalGames s = length lib /\
  completedGames s = length (List.filter (fun g => status g =? "completed") lib) /\
  (completedRatings lib = [] -> (averageRating s == 0)%Q) /\
  (completedRatings lib <> [] -> roundedToOneDecimal (mean (completedRatings lib)) (averageRating s)).

(** ** Sample data *)

Definition entry (id : Z) (nm st : string) (r : option Q) (added : Z) (done : option Z)
  : GameEntry :=
  {| gameId := id; name := nm; background_image := None; released := None;
     rating := None; platforms := []; genres := []; status := st;
     userRating := r; dateAdded := added; dateCompleted := done; notes := EmptyString |}.

Definition hades : GameEntry := entry 1 "Hades" "completed" (Some (9 # 1)) 1000 None.
Definition celeste : GameEntry := entry 2 "Celeste" "playing" None 2000 None.
Definition portal : GameEntry := entry 3 "Portal" "completed" (Some (17 # 2)) 3000 None.
Definition tetris : GameEntry := entry 4 "Tetris" "completed" (Some (17 # 2)) 4000 (Some 4500%Z).

Definition sampleUser : User :=
  updateStats {| gameLibrary := [hades; celeste; portal]; stats := stats newUser |}.

Definition addBody (id : Z) (nm st : string) : AddGameBody :=
  {| add_gameId := Value id; add_name := Value nm; add_background_image := Null;
     add_released := Absent; add_rating := Value (9 # 2); add_platforms := Absent;
     add_genres := Value [{| genre_id := Value 4%Z; genre_name := Value "Action" |}];
     add_status := Value st; add_unknown := [] |}.

Definition updateBody (st : field string) (r : field Q) (n : field string) : UpdateGameBody :=
  {| upd_status := st; upd_userRating := r; upd_notes := n; upd_unknown := [] |}.

(** An id that a library does not hold. [NaN] is equal to no id. *)
Definition idAbsent (id : ParsedInt) (lib : list GameEntry) : Prop :=
  match id with
  | NaN => True
  | Int z => ~ In z (map gameId lib)
  end.

(** The invariant of the specification on one entry: a completion date
    exactly when the status is completed. *)
Definition dateCompletedIffCompleted (g : GameEntry) : Prop :=
  dateCompleted g <> None <-> status g = "completed".

(** Its direction from the date to the status. *)
Definition dateCompletedOnlyIfCompleted (g : GameEntry) : Prop :=
  dateCompleted g <> None -> status g = "completed".

(** The keys of an entry that no update request can name. *)
Definition sameFixedKeys (g g' : GameEntry) : Prop :=
  gameId g' = gameId g /\ name g' = name g /\
  background_image g' = background_image g /\ released g' = released g /\
  rating g' = rating g /\ platforms g' = platforms g /\ genres g' = genres g /\
  dateAdded g' = dateAdded g.

(** The three keys an update request can name: a key that is absent keeps
    the stored value, a key that is present takes the value of the body. *)
Definition mergedKeys (body : UpdateGameBody) (g g' : GameEntry) : Prop :=
  (upd_status body = Absent -> status g' = status g) /\
  (upd_userRating body = Absent -> userRating g' = userRating g) /\
  (upd_notes body = Absent -> notes g' = notes g) /\
  (forall s, upd_status body = Value s -> status g' = s) /\
  (forall r, upd_userRating body = Value r -> userRating g' = Some r) /\
  (upd_userRating body = Null -> userRating g' = None) /\
  (forall n, upd_notes body = Value n -> notes g' = n).

(** The malformed bodies that the specification lists. *)
Inductive addBodyDefect (b : AddGameBody) : Prop :=
| add_missing_gameId : add_gameId b = Absent -> addBodyDefect b
| add_missing_name : add_name b = Absent -> addBodyDefect b
| add_missing_status : add_status b = Absent -> addBodyDefect b
| add_unknown_status (s : string) :
    add_status b = Value s -> ~ In s statuses -> addBodyDefect b.

Inductive updateBodyDefect (b : UpdateGameBody) : Prop :=
| upd_unknown_status (s : string) :
    upd_status b = Value s -> ~ In s statuses -> updateBodyDefect b
| upd_rating_out_of_range (r : Q) :
    upd_userRating b = Value r -> (r < 1 \/ 10 < r)%Q -> updateBodyDefect b
| upd_notes_too_long (n : string) :
    upd_notes b = Value n -> (500 < String.length n)%nat -> updateBodyDefect b.

Definition tetrisUser : User :=
  updateStats {| gameLibrary := [tetris]; stats := stats newUser |}.

(** The ids of the library after a request, in terms of the ids before. *)
Definition idsStep (req : Request) (ids ids' : list Z) : Prop :=
  match req with
  | Add _ => ids' = ids \/ exists id, ids' = (ids ++ [id])%list /\ ~ In id ids
  | Update _ _ => ids' = ids
  | Remove _ => ids' = ids \/ exists l1 id l2, ids = (l1 ++ id :: l2)%list /\ ids' = (l1 ++ l2)%list
  end.

(** *** Sorting *)

(** [a] may stand before [b]: the callback does not order it after. *)
Definition notAfter {A : Type} (comparefn : A -> A -> Q) (a b : A) : Prop :=
  (comparefn a b <= 0)%Q.

(** [a] and [b] compare equal. *)
Definition tied {A : Type} (comparefn : A -> A -> Q) (a b : A) : bool :=
  Qeq_bool (comparefn a b) 0.

(** A consistent comparison function, as ECMAScript asks of the callback
    of [sort]: swapping the arguments swaps the sign, and the order it
    induces is transitive. *)
Record consistent {A : Type} (comparefn : A -> A -> Q) : Prop := {
  flip_pos : forall a b, (0 < comparefn a b -> comparefn b a < 0)%Q;
  flip_neg : forall a b, (comparefn a b < 0 -> 0 < comparefn b a)%Q;
  flip_zero : forall a b, (comparefn a b == 0 -> comparefn b a == 0)%Q;
  notAfter_trans : forall a b c,
      (comparefn a b <= 0 -> comparefn b c <= 0 -> comparefn a c <= 0)%Q
}.

(** The same for a collation, whose results are integers. *)
Record consistentCollation (localeCompare : string -> string -> Z) : Prop := {
  collation_flip : forall s t, Z.sgn (localeCompare t s) = (- Z.sgn (localeCompare s t))%Z;
  collation_trans : forall s t u,
      (localeCompare s t <= 0 -> localeCompare t u <= 0 -> localeCompare s u <= 0)%Z
}.

(** [output] is [input] sorted stably: the same elements, in order, and
    the elements that compare equal to any given one in their input order. *)
Definition stableSortOf {A : Type} (comparefn : A -> A -> Q) (input output : list A) : Prop :=
  Permutation input output /\
  StronglySorted (notAfter comparefn) output /\
  (forall a, List.filter (tied comparefn a) output = List.filter (tied comparefn a) input).


(** Two entries are equal on a sort key. *)
Definition keyTied (localeCompare : string -> string -> Z) (sortBy : string)
           (a b : GameEntry) : Prop :=
  if sortBy =? "name" then localeCompare (name a) (name b) = 0%Z
  else if sortBy =? "rating" then (toNumber (userRating a) == toNumber (userRating b))%Q
  else if sortBy =? "dateAdded" then dateAdded a = dateAdded b
  else if sortBy =? "dateCompleted" then timeOf (dateCompleted a) = timeOf (dateCompleted b)
  else dateAdded a = dateAdded b.


(** The entries a listing selects: those with the status asked for, all
    of them when no status (or an empty one) is given. *)
Definition matching (status' : option string) (lib : list GameEntry) : list GameEntry :=
  match status' with
  | None => lib
  | Some s => if s =? EmptyString then lib else List.filter (fun g => status g =? s) lib
  end.

(** A collation to run the listing with: the order of the code units. *)
Definition codeUnitOrder (s t : string) : Z :=
  match String.compare s t with
  | Lt => (-1)%Z
  | Eq => 0%Z
  | Gt => 1%Z
  end.

Definition query (st sortBy order : option string) : Query :=
  {| q_status := st; q_sortBy := sortBy; q_order := order |}.

(** The store of a request whose user document holds the sample library
    at reference 1. *)
Definition sampleStore : Store := {[ 1%positive := [hades; celeste; portal] ]}.

(** ** The read-only routes *)

(** What a read-only handler sends: a payload, or [{ message }]. *)
Inductive Reply (A : Type) : Type :=
| Sent (code : Z) (payload : A)
| Failed (code : Z) (message : string).
Arguments Sent {A} code payload.
Arguments Failed {A} code message.

(** GET /api/games/library/:gameId, on the document [req.user]. *)
Definition getLibraryGame (gameId' : ParsedInt) (user : User) : Reply GameEntry :=
  match getGame user gameId' with
  | None => Failed 404 "Game not found in library"
  | Some game => Sent 200 game
  end.

(** The in-memory document [req.user]: its library is a reference. *)
Record UserDoc := {
  doc_gameLibrary : loc;
  doc_stats : Stats
}.

(** An element of [recentActivity]. *)
Record Activity := {
  act_name : string;
  act_status : string;
  act_dateAdded : Z
}.

Definition activity (game : GameEntry) : Activity :=
  {| act_name := name game; act_status := status game; act_dateAdded := dateAdded game |}.

(** The property key that [genre.name] is used as. *)
Definition propertyKey (v : field string) : string :=
  match v with
  | Absent => "undefined"
  | Null => "null"
  | Value s => s
  end.

(** The names every plain object inherits from [Object.prototype]. *)
Definition inheritedKeys : list string :=
  ["constructor"; "hasOwnProperty"; "isPrototypeOf"; "propertyIsEnumerable";
   "toLocaleString"; "toString"; "valueOf"; "__proto__";
   "__defineGetter__"; "__defineSetter__"; "__lookupGetter__"; "__lookupSetter__"].

Definition isDigit (c : ascii) : bool :=
  (48 <=? nat_of_ascii c)%nat && (nat_of_ascii c <=? 57)%nat.

Definition onlyDigits (k : string) : bool :=
  match list_ascii_of_string k with
  | [] => false
  | cs => forallb isDigit cs
  end.

(** A key on which a plain object is an insertion-ordered map: not
    inherited, and not an array index (which would be enumerated first, in
    numeric order). Every key written with digits only is left out. *)
Definition ordinaryKey (k : string) : bool :=
  negb (onlyDigits k) && negb (existsb (String.eqb k) inheritedKeys).

(** A plain object with ordinary keys and numeric values: its own
    properties in insertion order. *)
Abbreviation Counts := (list (string * nat)).

(** [obj[k] = (obj[k] || 0) + 1] *)
Fixpoint bump (k : string) (obj : Counts) : Counts :=
  match obj with
  | [] => [(k, 1%nat)]
  | (k', n) :: rest =>
      if k' =? k then (k', (n + 1)%nat) :: rest else (k', n) :: bump k rest
  end.

(** [obj[k] = v] *)
Fixpoint setProperty (k : string) (v : nat) (obj : Counts) : Counts :=
  match obj with
  | [] => [(k, v)]
  | (k', n) :: rest =>
      if k' =? k then (k', v) :: rest else (k', n) :: setProperty k v rest
  end.

(** The genre keys of a list of games, in the order [forEach] visits them. *)
Definition genreKeys (games : list GameEntry) : list string :=
  flat_map (fun game => map (fun genre => propertyKey (genre_name genre)) (genres game)) games.

(** The two nested [forEach] loops that fill [stats.topGenres]. *)
Definition countGenres (games : list GameEntry) : Counts :=
  fold_left
    (fun obj game =>
       fold_left (fun obj genre => bump (propertyKey (genre_name genre)) obj)
                 (genres game) obj)
    games [].

(** [Object.entries(...).sort(([, a], [, b]) => b - a).slice(0, 5).reduce(...)] *)
Definition byCountDescending (x y : string * nat) : Q :=
  (inject_Z (Z.of_nat (snd y)) - inject_Z (Z.of_nat (snd x)))%Q.

Definition topFive (counts : Counts) : Counts :=
  fold_left (fun obj entry => setProperty (fst entry) (snd entry) obj)
            (firstn 5 (Array_sort byCountDescending counts)) [].

(** The body of the stats response. *)
Record StatsReport := {
  rep_totalGames : nat;
  rep_playing : nat;
  rep_completed : nat;
  rep_dropped : nat;
  rep_planToPlay : nat;
  rep_averageRating : Q;
  rep_topGenres : Counts;
  rep_recentActivity : list Activity
}.

(** [games.filter(g => g.status === st).length] *)
Definition countStatus (st : string) (games : list GameEntry) : nat :=
  length (List.filter (fun g => status g =? st) games).

(** The callback of the sort in [recentActivity]. *)
Definition newestFirst (a b : GameEntry) : Q := inject_Z (dateAdded b - dateAdded a).

(** GET /api/games/stats. [games] is the array [user.gameLibrary] itself,
    so the sort inside [recentActivity] reorders it, and the genre loops
    that follow visit it in that order. The result is [None] where this
    model does not follow the code: for a dangling reference, and when a
    genre key is not ordinary (see [ordinaryKey]). *)
Definition getStats (user : UserDoc) (h : Store) : option (Reply StatsReport * Store) :=
  games ← h !! doc_gameLibrary user;
  let totalGames' := length games in
  let playing := countStatus "playing" games in
  let completed := countStatus "completed" games in
  let dropped := countStatus "dropped" games in
  let planToPlay := countStatus "plan-to-play" games in
  let sorted := Array_sort newestFirst games in
  let h' := <[doc_gameLibrary user := sorted]> h in
  let recentActivity := map activity (firstn 5 sorted) in
  if forallb ordinaryKey (genreKeys sorted) then
    Some (Sent 200
            {| rep_totalGames := totalGames';
               rep_playing := playing;
               rep_completed := completed;
               rep_dropped := dropped;
               rep_planToPlay := planToPlay;
               rep_averageRating := averageRating (doc_stats user);
               rep_topGenres := topFive (countGenres sorted);
               rep_recentActivity := recentActivity |},
          h')
  else None.

(** *** The public profile (routes/users.js) *)

(** A user of the database: the account fields and the library document. *)
Record Account := {
  username : string;
  bio : string;
  favoriteGenres : list string;
  joinDate : Z;
  document : User
}.

(** An element of [recentGames]. *)
Record RecentGame := {
  rg_name : string;
  rg_userRating : option Q;
  rg_dateCompleted : option Z;
  rg_background_image : option string
}.

Definition recentGame (game : GameEntry) : RecentGame :=
  {| rg_name := name game; rg_userRating := userRating game;
     rg_dateCompleted := dateCompleted game; rg_background_image := background_image game |}.

Record PublicProfile := {
  pp_username : string;
  pp_bio : string;
  pp_favoriteGenres : list string;
  pp_joinDate : Z;
  pp_stats : Stats;
  pp_recentGames : list RecentGame
}.

(** The callback of the sort in [recentGames]; [new Date(null)] is the epoch. *)
Definition lastCompletedFirst (a b : GameEntry) : Q :=
  inject_Z (timeOf (dateCompleted b) - timeOf (dateCompleted a)).

(** The games a public profile shows. [filter] makes a new array, so the
    sort does not touch the library. *)
Definition recentGames (lib : list GameEntry) : list RecentGame :=
  map recentGame
      (firstn 5 (Array_sort lastCompletedFirst
                            (List.filter (fun game => status game =? "completed") lib))).

(** GET /api/users/:username; [findOne] is the first account with the name. *)
Definition getPublicProfile (db : list Account) (username' : string) : Reply PublicProfile :=
  match find (fun u => username u =? username') db with
  | None => Failed 404 "User not found"
  | Some user =>
      Sent 200
           {| pp_username := username user;
              pp_bio := bio user;
              pp_favoriteGenres := favoriteGenres user;
              pp_joinDate := joinDate user;
              pp_stats := stats (document user);
              pp_recentGames := recentGames (gameLibrary (document user)) |}
  end.

(** *** Vocabulary for the further properties *)

(** The id a request is about. *)
Definition touches (req : Request) (z : Z) : Prop :=
  match req with
  | Add body => add_gameId body = Value z
  | Update id _ => id = Int z
  | Remove id => id = Int z
  end.

(** What the two schemas let into an entry: an allowed status, a rating
    that is null or between 1 and 10, notes of at most 500 characters and a
    name that is not empty. *)
Definition validEntry (g : GameEntry) : Prop :=
  In (status g) statuses /\
  (forall r, userRating g = Some r -> (1 <= r <= 10)%Q) /\
  (String.length (notes g) <= 500)%nat /\
  name g <> EmptyString.

(** [req.user] as loaded from a stored document. *)
Definition loaded (user : User) (doc : UserDoc) (h : Store) : Prop :=
  h !! doc_gameLibrary doc = Some (gameLibrary user) /\ doc_stats doc = stats user.

(** Sample data with genres. *)
Definition genre (nm : string) : Genre :=
  {| genre_id := Absent; genre_name := Value nm |}.

Definition tagged (names : list string) (g : GameEntry) : GameEntry :=
  {| gameId := gameId g; name := name g; background_image := background_image g;
     released := released g; rating := rating g; platforms := platforms g;
     genres := map genre names; status := status g; userRating := userRating g;
     dateAdded := dateAdded g; dateCompleted := dateCompleted g; notes := notes g |}.

Definition taggedLibrary : list GameEntry :=
  [tagged ["Action"; "Roguelike"] hades;
   tagged ["Platformer"; "Indie"] celeste;
   tagged ["Puzzle"; "Action"] portal].

Definition taggedUser : User :=
  updateStats {| gameLibrary := taggedLibrary; stats := stats newUser |}.

Definition taggedDoc : UserDoc :=
  {| doc_gameLibrary := 1%positive; doc_stats := stats taggedUser |}.

Definition taggedStore : Store := {[ 1%positive := taggedLibrary ]}.

Definition sampleAccounts : list Account :=
  [{| username := "ada"; bio := "hello"; favoriteGenres := ["Puzzle"]; joinDate := 500;
      document := sampleUser |};
   {| username := "bob"; bio := EmptyString; favoriteGenres := []; joinDate := 600;
      document := tetrisUser |}].

(** Every genre key of a library is an ordinary key. *)
Definition ordinaryGenres (lib : list GameEntry) : Prop :=
  forallb ordinaryKey (genreKeys lib) = true.

(** [shown] is the top [k] of [pool] for the order [R]: at most [k] of its
    elements, in order, none of the others ahead of any of them. *)
Definition topOf {A : Type} (R : A -> A -> Prop) (k : nat) (pool shown : list A) : Prop :=
  exists rest,
    Permutation pool (shown ++ rest) /\
    length shown = Nat.min k (length pool) /\
    StronglySorted R shown /\
    (forall x y, In x shown -> In y rest -> R x y).

(** [obj[k]], 0 for a key the object does not have. *)
Definition countOf (k : string) (obj : Counts) : nat :=
  match find (fun e => fst e =? k) obj with
  | Some e => snd e
  | None => 0%nat
  end.

(** How often a genre key occurs in a library. *)
Definition occurrences (k : string) (lib : list GameEntry) : nat :=
  count_occ string_dec (genreKeys lib) k.

(** * Properties *)

(** ** Stats *)

Lemma fold_left_Qplus_shift (f : GameEntry -> Q) (l : list GameEntry) (a : Q) :
  (fold_left (fun sum game => sum + f game) l a == a + fold_left (fun sum game => sum + f game) l 0)%Q.
Proof.
  revert a. induction l as [|g l IH]; intros a; simpl.
  - ring.
  - rewrite (IH (a + f g)%Q), (IH (0 + f g)%Q).
    generalize (fold_left (fun sum game => sum + f game)%Q l 0%Q). intros t. ring.
Qed.

Lemma ratedGames_total (lib : list GameEntry) :
  (fold_left (fun sum game => sum + toNumber (userRating game))
     (List.filter (fun game => notNull (userRating game))
        (List.filter (fun game => status game =? "completed") lib)) 0
   == Qsum (completedRatings lib))%Q.
Proof.
  induction lib as [|g lib IH]; simpl.
  - reflexivity.
  - destruct (status g =? "completed"); simpl; [|exact IH].
    destruct (userRating g) as [r|] eqn:Er; simpl; [|exact IH].
    rewrite fold_left_Qplus_shift, IH, Er. simpl.
    generalize (Qsum (completedRatings lib)). intros t. ring.
Qed.

Lemma ratedGames_length (lib : list GameEntry) :
  length (List.filter (fun game => notNull (userRating game))
            (List.filter (fun game => status game =? "completed") lib))
  = length (completedRatings lib).
Proof.
  induction lib as [|g lib IH]; simpl; [reflexivity|].
  destruct (status g =? "completed"); simpl; [|exact IH].
  destruct (userRating g); simpl; congruence.
Qed.

Lemma Math_round_tenths (m : Q) :
  roundedToOneDecimal m (inject_Z (Math_round (m * 10)) / 10).
Proof.
  unfold roundedToOneDecimal, Math_round.
  pose proof (Qfloor_le (m * 10 + (1 # 2))) as Hlo.
  pose proof (Qlt_floor (m * 10 + (1 # 2))) as Hhi.
  set (k := Qfloor (m * 10 + (1 # 2))) in *.
  rewrite inject_Z_plus in Hhi. change (inject_Z 1) with 1%Q in Hhi.
  assert (Hdiv : (inject_Z k / 10 == inject_Z k * (1 # 10))%Q) by (unfold Qdiv; reflexivity).
  split; [exists k; reflexivity|].
  rewrite Hdiv. split; lra.
Qed.

(** Rounding to one decimal place determines the result. *)
Lemma roundedToOneDecimal_unique (m r r' : Q) :
  roundedToOneDecimal m r -> roundedToOneDecimal m r' -> (r == r')%Q.
Proof.
  intros ((k & Hk) & Hlo & Hhi) ((k' & Hk') & Hlo' & Hhi').
  assert (Hr : (r == inject_Z k * (1 # 10))%Q) by (rewrite Hk; unfold Qdiv; reflexivity).
  assert (Hr' : (r' == inject_Z k' * (1 # 10))%Q) by (rewrite Hk'; unfold Qdiv; reflexivity).
  assert (H1 : (inject_Z k < inject_Z (k' + 1))%Q)
    by (rewrite inject_Z_plus; change (inject_Z 1) with 1%Q; lra).
  assert (H2 : (inject_Z k' < inject_Z (k + 1))%Q)
    by (rewrite inject_Z_plus; change (inject_Z 1) with 1%Q; lra).
  rewrite <- Zlt_Qlt in H1, H2.
  assert (k = k') by lia. subst k'. rewrite Hr, Hr'. reflexivity.
Qed.

Lemma updateStats_library (u : User) : gameLibrary (updateStats u) = gameLibrary u.
Proof. reflexivity. Qed.

Lemma roundedToOneDecimal_Qeq (m r r' : Q) :
  (r == r')%Q -> roundedToOneDecimal m r -> roundedToOneDecimal m r'.
Proof.
  intros Hr ((k & Hk) & Hlo & Hhi). unfold roundedToOneDecimal.
  split; [exists k; rewrite <- Hr; exact Hk|].
  split; lra.
Qed.

Lemma updateStats_statsOf (u : User) :
  statsOf (gameLibrary (updateStats u)) (stats (updateStats u)).
Proof.
  unfold statsOf. simpl.
  split; [reflexivity|]. split; [reflexivity|].
  rewrite ratedGames_length.
  split.
  - intros ->. reflexivity.
  - intros Hne.
    destruct (completedRatings (gameLibrary u)) as [|r rs] eqn:E; [congruence|].
    rewrite <- E.
    assert (Hpos : (0 <? length (completedRatings (gameLibrary u)))%nat = true).
    { rewrite E. reflexivity. }
    rewrite Hpos.
    eapply roundedToOneDecimal_Qeq;
      [|apply (Math_round_tenths (mean (completedRatings (gameLibrary u))))].
    unfold Math_round, mean. rewrite ratedGames_total. reflexivity.
Qed.

(** Every handler either answers with an error and leaves the document as
    it was, or reports success and leaves a document whose stats were
    recomputed by [updateStats] as its last step. *)
Lemma handle_cases (now : Z) (req : Request) (user : User) :
  (succeeded (fst (handle now req user)) = false /\ snd (handle now req user) = user) \/
  (succeeded (fst (handle now req user)) = true /\
   exists u1, snd (handle now req user) = updateStats u1).
Proof.
  destruct req as [body|id body|id]; simpl.
  - unfold postLibrary.
    destruct (addGameSchema body); [left; split; reflexivity|].
    destruct (add_gameId body); [left; split; reflexivity ..|].
    destruct (add_name body); [left; split; reflexivity ..|].
    destruct (add_status body); [left; split; reflexivity ..|].
    destruct (hasGame user a); [left; split; reflexivity|].
    right. split; [reflexivity|]. eexists. reflexivity.
  - unfold putLibrary.
    destruct (updateGameSchema body); [left; split; reflexivity|].
    destruct (getGame user id); [|left; split; reflexivity].
    right. split; [reflexivity|]. eexists. reflexivity.
  - unfold deleteLibrary.
    destruct (findIndex _ _); [|left; split; reflexivity].
    right. split; [reflexivity|]. eexists. reflexivity.
Qed.


(** The stats of every document reached from a new user belong to its
    library. *)
Lemma stats_invariant_run (reqs : list (Z * Request)) (user : User) :
  statsOf (gameLibrary user) (stats user) ->
  statsOf (gameLibrary (run reqs user)) (stats (run reqs user)).
Proof.
  revert user. induction reqs as [|[now req] reqs IH]; intros user Hu; simpl; [exact Hu|].
  apply IH.
  destruct (handle_cases now req user) as [[_ Hsame]|[_ [u1 Hu1]]].
  - rewrite Hsame. exact Hu.
  - rewrite Hu1. apply updateStats_statsOf.
Qed.


(** The stats of the sample user after that update: three games, all
    completed, rated 9, 7 and 8.5, so the mean 8.1666... rounds to 8.2. *)
Example stats_after_update :
  stats (snd (handle 6000 (Update (Int 2) (updateBody (Value "completed") (Value (7 # 1)) Absent))
                     sampleUser))
  = {| totalGames := 3; completedGames := 3; averageRating := 82 # 10 |}.
Proof. reflexivity. Qed.

(** ** Lists as the routes use them *)

Section ArrayFacts.

Context {A : Type}.
Variable p : A -> bool.

Lemma findIndex_Some (arr : list A) (i : nat) :
  findIndex p arr = Some i ->
  exists l1 x l2,
    arr = (l1 ++ x :: l2)%list /\ length l1 = i /\ p x = true /\
    (forall y, In y l1 -> p y = false).
Proof.
  revert i. induction arr as [|a arr IH]; intros i; simpl; [discriminate|].
  destruct (p a) eqn:Hpa.
  - intros [= <-]. exists [], a, arr. repeat split; auto. intros y [].
  - destruct (findIndex p arr) as [j|]; simpl; [|discriminate].
    intros [= <-].
    destruct (IH j eq_refl) as (l1 & x & l2 & -> & Hlen & Hx & Hl1).
    exists (a :: l1), x, l2. simpl. repeat split; auto.
    intros y [<-|Hy]; auto.
Qed.

Lemma findIndex_None (arr : list A) :
  findIndex p arr = None <-> (forall y, In y arr -> p y = false).
Proof.
  induction arr as [|a arr IH]; simpl.
  - split; [intros _ y []|reflexivity].
  - destruct (p a) eqn:Hpa.
    + split; [discriminate|]. intros H. specialize (H a (or_introl eq_refl)). congruence.
    + destruct (findIndex p arr) as [n|]; simpl.
      * split; [discriminate|]. intros H.
        assert (Hn : Some n = None); [|discriminate].
        apply IH. intros y Hy. apply H. right. exact Hy.
      * split; [|reflexivity]. intros _ y [<-|Hy]; [exact Hpa|].
        apply IH; auto.
Qed.

Lemma find_Some_split (arr : list A) (x : A) :
  find p arr = Some x ->
  exists l1 l2,
    arr = (l1 ++ x :: l2)%list /\ p x = true /\ (forall y, In y l1 -> p y = false).
Proof.
  induction arr as [|a arr IH]; simpl; [discriminate|].
  destruct (p a) eqn:Hpa.
  - intros [= <-]. exists [], arr. repeat split; auto. intros y [].
  - intros Hf. destruct (IH Hf) as (l1 & l2 & -> & Hx & Hl1).
    exists (a :: l1), l2. repeat split; auto.
    intros y [<-|Hy]; auto.
Qed.

Lemma find_None_all (arr : list A) :
  find p arr = None <-> (forall y, In y arr -> p y = false).
Proof.
  induction arr as [|a arr IH]; simpl.
  - split; [intros _ y []|reflexivity].
  - destruct (p a) eqn:Hpa.
    + split; [discriminate|]. intros H. specialize (H a (or_introl eq_refl)). congruence.
    + rewrite IH. split.
      * intros H y [<-|Hy]; auto.
      * intros H y Hy. apply H. right. exact Hy.
Qed.

Lemma splice1_app (l1 l2 : list A) (x : A) :
  splice1 (length l1) (l1 ++ x :: l2) = (l1 ++ l2)%list.
Proof.
  unfold splice1.
  rewrite firstn_app, Nat.sub_diag, firstn_all. simpl. rewrite app_nil_r.
  change (S (length l1)) with (1 + length l1)%nat.
  rewrite Nat.add_comm.
  replace (l1 ++ x :: l2)%list with ((l1 ++ [x]) ++ l2)%list
    by (rewrite <- app_assoc; reflexivity).
  replace (length l1 + 1)%nat with (length (l1 ++ [x])%list)
    by (rewrite length_app; reflexivity).
  rewrite skipn_app, Nat.sub_diag, skipn_all. reflexivity.
Qed.

Variable f : A -> A.

Lemma mutateFound_split (l1 l2 : list A) (x : A) :
  (forall y, In y l1 -> p y = false) -> p x = true ->
  mutateFound p f (l1 ++ x :: l2) = (l1 ++ f x :: l2)%list.
Proof.
  intros Hl1 Hx. induction l1 as [|a l1 IH]; simpl.
  - rewrite Hx. reflexivity.
  - rewrite (Hl1 a (or_introl eq_refl)). f_equal. apply IH.
    intros y Hy. apply Hl1. right. exact Hy.
Qed.

Lemma mutateFound_map {B : Type} (k : A -> B) (arr : list A) :
  (forall x, k (f x) = k x) -> map k (mutateFound p f arr) = map k arr.
Proof.
  intros Hk. induction arr as [|a arr IH]; simpl; [reflexivity|].
  destruct (p a); simpl; [rewrite Hk; reflexivity|]. f_equal. exact IH.
Qed.

Lemma mutateFound_In (arr : list A) (y : A) :
  In y (mutateFound p f arr) -> In y arr \/ exists x, In x arr /\ y = f x.
Proof.
  induction arr as [|a arr IH]; simpl; [intros []|].
  destruct (p a); simpl.
  - intros [<-|Hy]; [right; exists a; auto|left; auto].
  - intros [<-|Hy]; [left; auto|].
    destruct (IH Hy) as [H|(x & Hx & ->)]; [left; auto|right; exists x; auto].
Qed.

End ArrayFacts.

Lemma hasGame_In (user : User) (id : Z) :
  hasGame user id = true <-> In id (map gameId (gameLibrary user)).
Proof.
  unfold hasGame. rewrite existsb_exists, in_map_iff. split.
  - intros (g & Hg & Heq). apply Z.eqb_eq in Heq. exists g. auto.
  - intros (g & Heq & Hg). exists g. split; [exact Hg|]. apply Z.eqb_eq. exact Heq.
Qed.

Lemma sameId_Int (stored z : Z) : sameId stored (Int z) = true <-> stored = z.
Proof. simpl. apply Z.eqb_eq. Qed.

Lemma andThen_None (r1 r2 : option Joi.ValidationError) :
  Joi.andThen r1 r2 = None <-> r1 = None /\ r2 = None.
Proof.
  destruct r1; simpl; split; try tauto; try discriminate; intros [H _]; discriminate.
Qed.

(** A body that [addGameSchema] accepts has its required keys, a status
    among the four allowed ones, and no undeclared key. *)
Lemma addGameSchema_accepts (b : AddGameBody) :
  addGameSchema b = None ->
  exists id nm st,
    add_gameId b = Value id /\ add_name b = Value nm /\ add_status b = Value st /\
    In st statuses /\ add_unknown b = [].
Proof.
  unfold addGameSchema. rewrite !andThen_None.
  intros (Hid & Hnm & _ & _ & _ & _ & _ & Hst & Hun).
  destruct (add_gameId b) as [| |id]; try discriminate.
  destruct (add_name b) as [| |nm]; try discriminate.
  destruct (add_status b) as [| |st]; try discriminate.
  exists id, nm, st. repeat split; auto.
  - unfold Joi.string_valid_required in Hst.
    destruct (existsb (String.eqb st) statuses) eqn:E; [|discriminate].
    apply existsb_exists in E. destruct E as (x & Hx & Heq).
    apply String.eqb_eq in Heq. subst. exact Hx.
  - destruct (add_unknown b); [reflexivity|discriminate].
Qed.

(** A body that [updateGameSchema] accepts: each key is absent or has an
    allowed value, and no undeclared key is present. *)
Lemma updateGameSchema_accepts (b : UpdateGameBody) :
  updateGameSchema b = None ->
  (upd_status b = Absent \/ exists st, upd_status b = Value st /\ In st statuses) /\
  (forall r, upd_userRating b = Value r -> (1 <= r <= 10)%Q) /\
  (upd_notes b = Absent \/ exists n, upd_notes b = Value n /\ (String.length n <= 500)%nat) /\
  upd_unknown b = [].
Proof.
  unfold updateGameSchema. rewrite !andThen_None.
  intros (Hst & Hr & Hn & Hun).
  split; [|split; [|split]].
  - destruct (upd_status b) as [| |st]; try discriminate; [left; reflexivity|].
    right. exists st. split; [reflexivity|].
    unfold Joi.string_valid in Hst.
    destruct (existsb (String.eqb st) statuses) eqn:E; [|discriminate].
    apply existsb_exists in E. destruct E as (x & Hx & Heq).
    apply String.eqb_eq in Heq. subst. exact Hx.
  - intros r Hrating. rewrite Hrating in Hr. simpl in Hr.
    destruct (Qle_bool 1 r) eqn:E1; [|discriminate].
    destruct (Qle_bool r 10) eqn:E2; [|discriminate].
    split; apply Qle_bool_iff; assumption.
  - destruct (upd_notes b) as [| |n]; try discriminate; [left; reflexivity|].
    right. exists n. split; [reflexivity|].
    simpl in Hn. destruct (n =? EmptyString) eqn:En.
    + apply String.eqb_eq in En. subst. simpl. lia.
    + destruct (500 <? String.length n)%nat eqn:E; [discriminate|].
      apply Nat.ltb_ge in E. exact E.
  - destruct (upd_unknown b); [reflexivity|discriminate].
Qed.

(** ** Adding *)



(** A valid add request with a new id appends one entry built from the
    body and the schema defaults. *)
Lemma add_new_appends (now : Z) (body : AddGameBody) (user : User) (id : Z) :
  addGameSchema body = None ->
  add_gameId body = Value id ->
  ~ In id (map gameId (gameLibrary user)) ->
  exists nm st,
    add_name body = Value nm /\ add_status body = Value st /\
    snd (postLibrary now body user)
    = updateStats (set_gameLibrary
                     (gameLibrary user ++ [castEntry now id nm st body])%list user) /\
    statusCode (fst (postLibrary now body user)) = 201%Z.
Proof.
  intros Hvalid Hid Hnin.
  destruct (addGameSchema_accepts body Hvalid) as (id' & nm & st & Hid' & Hnm & Hst & _).
  exists nm, st. unfold postLibrary. rewrite Hvalid, Hid, Hnm, Hst.
  destruct (hasGame user id) eqn:Hhas.
  - apply hasGame_In in Hhas. contradiction.
  - repeat split; reflexivity.
Qed.

Lemma updateEntry_gameId (now : Z) (body : UpdateGameBody) (g : GameEntry) :
  gameId (updateEntry now body g) = gameId g.
Proof.
  unfold updateEntry, completionDate, assignKeys.
  destruct (upd_status body), (upd_userRating body), (upd_notes body); simpl;
    repeat match goal with |- context [if ?c then _ else _] => destruct c end; reflexivity.
Qed.

Lemma handle_idsStep (now : Z) (req : Request) (user : User) :
  idsStep req (map gameId (gameLibrary user))
          (map gameId (gameLibrary (snd (handle now req user)))).
Proof.
  destruct req as [body|id body|id]; simpl.
  - unfold postLibrary.
    destruct (addGameSchema body); [left; reflexivity|].
    destruct (add_gameId body) as [| |gid]; [left; reflexivity ..|].
    destruct (add_name body) as [| |nm]; [left; reflexivity ..|].
    destruct (add_status body) as [| |st]; [left; reflexivity ..|].
    destruct (hasGame user gid) eqn:Hhas; [left; reflexivity|].
    right. exists gid. simpl. rewrite map_app. split; [reflexivity|].
    intros Hin. apply hasGame_In in Hin. congruence.
  - unfold putLibrary.
    destruct (updateGameSchema body); [reflexivity|].
    destruct (getGame user id); [|reflexivity].
    simpl. apply mutateFound_map. intros x. apply updateEntry_gameId.
  - unfold deleteLibrary.
    destruct (findIndex _ _) as [i|] eqn:Hfi; [|left; reflexivity].
    right. destruct (findIndex_Some _ _ _ Hfi) as (l1 & x & l2 & Hlib & Hlen & _ & _).
    exists (map gameId l1), (gameId x), (map gameId l2). simpl.
    rewrite Hlib, <- Hlen, splice1_app, !map_app. split; reflexivity.
Qed.

(** ** Uniqueness of game ids *)



(** From a new user on, no sequence of requests ever duplicates an id. *)
Lemma gameId_unique_run (reqs : list (Z * Request)) (user : User) :
  List.NoDup (map gameId (gameLibrary user)) ->
  List.NoDup (map gameId (gameLibrary (run reqs user))).
Proof.
  revert user. induction reqs as [|[now req] reqs IH]; intros user Hnd; simpl; [exact Hnd|].
  apply IH.
  pose proof (handle_idsStep now req user) as Hstep.
  revert Hstep. generalize (map gameId (gameLibrary (snd (handle now req user)))).
  intros ids' Hstep.
  destruct req as [body|id body|id]; simpl in Hstep.
  - destruct Hstep as [->|(gid & -> & Hnin)]; [exact Hnd|].
    apply List.NoDup_app; auto.
    + constructor; [intros []|constructor].
    + intros x Hx [<-|[]]. contradiction.
  - rewrite Hstep. exact Hnd.
  - destruct Hstep as [->|(l1 & gid & l2 & Hids & ->)]; [exact Hnd|].
    rewrite Hids in Hnd. eapply List.NoDup_remove_1. exact Hnd.
Qed.

(** ** Removing *)



(** ** Updating *)

Lemma updateEntry_sameFixedKeys (now : Z) (body : UpdateGameBody) (g : GameEntry) :
  sameFixedKeys g (updateEntry now body g).
Proof.
  unfold sameFixedKeys, updateEntry, completionDate, assignKeys.
  destruct (upd_status body), (upd_userRating body), (upd_notes body); simpl;
    repeat match goal with |- context [if ?c then _ else _] => destruct c end;
    simpl; repeat split; reflexivity.
Qed.

Lemma updateEntry_mergedKeys (now : Z) (body : UpdateGameBody) (g : GameEntry) :
  mergedKeys body g (updateEntry now body g).
Proof.
  unfold mergedKeys, updateEntry, completionDate, assignKeys.
  destruct (upd_status body), (upd_userRating body), (upd_notes body); simpl;
    repeat match goal with |- context [if ?c then _ else _] => destruct c end;
    simpl; repeat split; intros; try discriminate; try congruence.
Qed.

(** C5. An accepted update of an entry that exists changes only that entry
    (the first one with the id), and in it only [dateCompleted] and the keys
    present in the body: every other key keeps its value, and the entries
    before and after it are untouched. *)
Theorem update_merges_provided_fields
        (now : Z) (id : ParsedInt) (body : UpdateGameBody) (user : User) (game : GameEntry) :
  updateGameSchema body = None ->
  getGame user id = Some game ->
  exists l1 l2,
    gameLibrary user = (l1 ++ game :: l2)%list /\
    (forall y, In y l1 -> sameId (gameId y) id = false) /\
    gameLibrary (snd (putLibrary now id body user))
    = (l1 ++ updateEntry now body game :: l2)%list /\
    sameFixedKeys game (updateEntry now body game) /\
    mergedKeys body game (updateEntry now body game) /\
    fst (putLibrary now id body user)
    = respond 200 (JMessageGame (Text "Game updated successfully")
                                (Some (updateEntry now body game))).
Proof.
  intros Hvalid Hget.
  destruct (find_Some_split _ _ _ Hget) as (l1 & l2 & Hlib & Hp & Hl1).
  exists l1, l2. split; [exact Hlib|]. split; [exact Hl1|].
  unfold putLibrary. rewrite Hvalid, Hget. simpl.
  split.
  - rewrite Hlib. apply mutateFound_split; assumption.
  - split; [apply updateEntry_sameFixedKeys|].
    split; [apply updateEntry_mergedKeys|reflexivity].
Qed.

Lemma update_merges_provided_fields_witness :
  exists l1 l2,
    gameLibrary sampleUser = (l1 ++ celeste :: l2)%list /\
    (forall y, In y l1 -> sameId (gameId y) (Int 2) = false) /\
    gameLibrary (snd (putLibrary 6000 (Int 2) (updateBody Absent (Value (7 # 1)) Absent) sampleUser))
    = (l1 ++ updateEntry 6000 (updateBody Absent (Value (7 # 1)) Absent) celeste :: l2)%list /\
    sameFixedKeys celeste (updateEntry 6000 (updateBody Absent (Value (7 # 1)) Absent) celeste) /\
    mergedKeys (updateBody Absent (Value (7 # 1)) Absent) celeste
               (updateEntry 6000 (updateBody Absent (Value (7 # 1)) Absent) celeste) /\
    fst (putLibrary 6000 (Int 2) (updateBody Absent (Value (7 # 1)) Absent) sampleUser)
    = respond 200 (JMessageGame (Text "Game updated successfully")
                     (Some (updateEntry 6000 (updateBody Absent (Value (7 # 1)) Absent) celeste))).
Proof.
  apply (update_merges_provided_fields 6000 (Int 2)
           (updateBody Absent (Value (7 # 1)) Absent) sampleUser celeste).
  - reflexivity.
  - reflexivity.
Defined.

(** The completion date after an update: kept when the body sets the status
    to completed, null otherwise. The branch that stores [now] is never
    taken, because the loop has already written the new status when the
    old one is compared. *)
Lemma updateEntry_dateCompleted (now : Z) (body : UpdateGameBody) (g : GameEntry) :
  dateCompleted (updateEntry now body g)
  = if isValue (upd_status body) "completed" then dateCompleted g else None.
Proof.
  unfold updateEntry, completionDate, assignKeys.
  destruct (upd_status body) as [| |s]; simpl.
  - destruct (upd_userRating body), (upd_notes body); reflexivity.
  - destruct (upd_userRating body), (upd_notes body); reflexivity.
  - destruct (s =? "completed") eqn:Es; simpl.
    + destruct (upd_userRating body), (upd_notes body); simpl; rewrite Es; reflexivity.
    + destruct (upd_userRating body), (upd_notes body); reflexivity.
Qed.

(** C4, at the failing input: Celeste is stored as 'playing' with no
    completion date; the request sets its status to 'completed' at time
    6000. The update is accepted and the status changes, but the completion
    date stays null. *)
Theorem update_to_completed_does_not_stamp :
  let body := updateBody (Value "completed") Absent Absent in
  let result := putLibrary 6000 (Int 2) body sampleUser in
  getGame sampleUser (Int 2) = Some celeste /\
  status celeste = "playing" /\
  statusCode (fst result) = 200%Z /\
  option_map status (getGame (snd result) (Int 2)) = Some "completed" /\
  option_map dateCompleted (getGame (snd result) (Int 2)) = Some None.
Proof. repeat split; reflexivity. Qed.

(** An update that names no status clears a stored completion date. *)
Lemma update_without_status_clears :
  status tetris = "completed" /\
  dateCompleted tetris = Some 4500%Z /\
  status (updateEntry 7000 (updateBody Absent Absent (Value "again")) tetris) = "completed" /\
  dateCompleted (updateEntry 7000 (updateBody Absent Absent (Value "again")) tetris) = None.
Proof. repeat split; reflexivity. Qed.

(** An update that moves the status out of completed clears the date. *)
Lemma update_out_of_completed_clears (now : Z) (body : UpdateGameBody) (g : GameEntry) (s : string) :
  upd_status body = Value s -> s <> "completed" ->
  status (updateEntry now body g) = s /\ dateCompleted (updateEntry now body g) = None.
Proof.
  intros Hs Hne. split.
  - apply (updateEntry_mergedKeys now body g). exact Hs.
  - rewrite updateEntry_dateCompleted, Hs. simpl.
    apply String.eqb_neq in Hne. rewrite Hne. reflexivity.
Qed.

(** No sequence of requests ever stores a completion date: the only
    statement that could is the branch of [completionDate] that is never
    taken. *)
Lemma dateCompleted_never_set (reqs : list (Z * Request)) (user : User) :
  Forall (fun g => dateCompleted g = None) (gameLibrary user) ->
  Forall (fun g => dateCompleted g = None) (gameLibrary (run reqs user)).
Proof.
  revert user. induction reqs as [|[now req] reqs IH]; intros user Hinv; simpl; [exact Hinv|].
  apply IH. destruct req as [body|id body|id]; simpl.
  - unfold postLibrary.
    destruct (addGameSchema body); [exact Hinv|].
    destruct (add_gameId body) as [| |gid]; [exact Hinv ..|].
    destruct (add_name body) as [| |nm]; [exact Hinv ..|].
    destruct (add_status body) as [| |st]; [exact Hinv ..|].
    destruct (hasGame user gid); [exact Hinv|].
    simpl. apply Forall_app. split; [exact Hinv|]. repeat constructor.
  - unfold putLibrary.
    destruct (updateGameSchema body); [exact Hinv|].
    destruct (getGame user id); [|exact Hinv].
    simpl. apply List.Forall_forall. intros y Hy.
    rewrite List.Forall_forall in Hinv.
    apply mutateFound_In in Hy. destruct Hy as [Hy|(x & Hx & ->)]; [apply Hinv; exact Hy|].
    rewrite updateEntry_dateCompleted.
    destruct (isValue (upd_status body) "completed"); [apply Hinv; exact Hx|reflexivity].
  - unfold deleteLibrary.
    destruct (findIndex _ _) as [i|] eqn:Hfi; [|exact Hinv].
    destruct (findIndex_Some _ _ _ Hfi) as (l1 & x & l2 & Hlib & Hlen & _ & _).
    simpl. rewrite Hlib, <- Hlen, splice1_app.
    rewrite Hlib in Hinv. apply Forall_app in Hinv. destruct Hinv as [H1 H2].
    apply Forall_app. split; [exact H1|]. inversion H2; assumption.
Qed.

(** ** Completion dates *)

Lemma updateEntry_onlyIfCompleted (now : Z) (body : UpdateGameBody) (g : GameEntry) :
  dateCompletedOnlyIfCompleted (updateEntry now body g).
Proof.
  unfold dateCompletedOnlyIfCompleted. rewrite updateEntry_dateCompleted.
  destruct (upd_status body) as [| |s] eqn:Hs; simpl; try congruence.
  destruct (s =? "completed") eqn:Es; [|congruence].
  intros _. apply String.eqb_eq in Es. subst s.
  apply (updateEntry_mergedKeys now body g). exact Hs.
Qed.

Lemma handle_onlyIfCompleted (now : Z) (req : Request) (user : User) :
  Forall dateCompletedOnlyIfCompleted (gameLibrary user) ->
  Forall dateCompletedOnlyIfCompleted (gameLibrary (snd (handle now req user))).
Proof.
  intros Hinv. destruct req as [body|id body|id]; simpl.
  - unfold postLibrary.
    destruct (addGameSchema body); [exact Hinv|].
    destruct (add_gameId body) as [| |gid]; [exact Hinv ..|].
    destruct (add_name body) as [| |nm]; [exact Hinv ..|].
    destruct (add_status body) as [| |st]; [exact Hinv ..|].
    destruct (hasGame user gid); [exact Hinv|].
    simpl. apply Forall_app. split; [exact Hinv|].
    constructor; [|constructor]. intros Hd. simpl in Hd. congruence.
  - unfold putLibrary.
    destruct (updateGameSchema body); [exact Hinv|].
    destruct (getGame user id); [|exact Hinv].
    simpl. apply List.Forall_forall. intros y Hy.
    apply mutateFound_In in Hy. destruct Hy as [Hy|(x & Hx & ->)].
    + rewrite List.Forall_forall in Hinv. apply Hinv. exact Hy.
    + apply updateEntry_onlyIfCompleted.
  - unfold deleteLibrary.
    destruct (findIndex _ _) as [i|] eqn:Hfi; [|exact Hinv].
    destruct (findIndex_Some _ _ _ Hfi) as (l1 & x & l2 & Hlib & Hlen & _ & _).
    simpl. rewrite Hlib, <- Hlen, splice1_app.
    rewrite Hlib in Hinv. apply Forall_app in Hinv. destruct Hinv as [H1 H2].
    apply Forall_app. split; [exact H1|]. inversion H2; assumption.
Qed.

(** C2, as the code has it: after any sequence of add, update and remove
    requests, an entry with a completion date has status completed. *)
Theorem dateCompleted_only_if_completed (reqs : list (Z * Request)) (user : User) :
  Forall dateCompletedOnlyIfCompleted (gameLibrary user) ->
  Forall dateCompletedOnlyIfCompleted (gameLibrary (run reqs user)).
Proof.
  revert user. induction reqs as [|[now req] reqs IH]; intros user Hinv; simpl; [exact Hinv|].
  apply IH. apply handle_onlyIfCompleted. exact Hinv.
Qed.

(** C2, as stated, fails: a game added as completed is stored with status
    completed and no completion date. *)
Lemma dateCompleted_iff_completed_fails :
  ~ Forall dateCompletedIffCompleted
      (gameLibrary (run [(5000%Z, Add (addBody 7 "Doom" "completed"))] newUser)).
Proof.
  intros H. inversion H as [|g l Hg _]; subst.
  destruct Hg as [_ Hg]. apply Hg; reflexivity.
Qed.

Lemma dateCompleted_only_if_completed_witness :
  Forall dateCompletedOnlyIfCompleted
    (gameLibrary (run [(5000%Z, Add (addBody 7 "Doom" "completed"));
                       (6000%Z, Update (Int 4) (updateBody (Value "completed") Null Absent));
                       (7000%Z, Update (Int 7) (updateBody (Value "dropped") Absent Absent))]
                      tetrisUser)).
Proof.
  apply (dateCompleted_only_if_completed
           [(5000%Z, Add (addBody 7 "Doom" "completed"));
            (6000%Z, Update (Int 4) (updateBody (Value "completed") Null Absent));
            (7000%Z, Update (Int 7) (updateBody (Value "dropped") Absent Absent))]
           tetrisUser).
  simpl. constructor; [intros _; reflexivity|constructor].
Defined.

(** ** Validation and missing entities *)

Lemma andThen_Some_l (r1 r2 : option Joi.ValidationError) :
  r1 <> None -> Joi.andThen r1 r2 = r1.
Proof. destruct r1; simpl; congruence. Qed.

Lemma andThen_not_None (r1 r2 : option Joi.ValidationError) :
  r1 <> None \/ r2 <> None -> Joi.andThen r1 r2 <> None.
Proof. destruct r1; simpl; [congruence|]. intros [H|H]; congruence. Qed.

Lemma not_allowed (s : string) (allowed : list string) :
  ~ In s allowed -> existsb (String.eqb s) allowed = false.
Proof.
  intros Hnin. destruct (existsb (String.eqb s) allowed) eqn:E; [|reflexivity].
  apply existsb_exists in E. destruct E as (x & Hx & Heq).
  apply String.eqb_eq in Heq. subst. contradiction.
Qed.

Lemma addBodyDefect_refused (b : AddGameBody) :
  addBodyDefect b -> addGameSchema b <> None.
Proof.
  intros Hd. unfold addGameSchema.
  destruct Hd as [H|H|H|s H Hs].
  - apply andThen_not_None. left. rewrite H. discriminate.
  - apply andThen_not_None. right. apply andThen_not_None. left. rewrite H. discriminate.
  - do 7 (apply andThen_not_None; right). apply andThen_not_None. left.
    rewrite H. discriminate.
  - do 7 (apply andThen_not_None; right). apply andThen_not_None. left.
    rewrite H. unfold Joi.string_valid_required. rewrite (not_allowed _ _ Hs). discriminate.
Qed.

Lemma updateBodyDefect_refused (b : UpdateGameBody) :
  updateBodyDefect b -> updateGameSchema b <> None.
Proof.
  intros Hd. unfold updateGameSchema.
  destruct Hd as [s H Hs|r H Hr|n H Hn].
  - apply andThen_not_None. left. rewrite H.
    unfold Joi.string_valid. rewrite (not_allowed _ _ Hs). discriminate.
  - apply andThen_not_None. right. apply andThen_not_None. left. rewrite H. simpl.
    destruct (Qle_bool 1 r) eqn:E1; simpl; [|discriminate].
    destruct (Qle_bool r 10) eqn:E2; simpl; [|discriminate].
    apply Qle_bool_iff in E1. apply Qle_bool_iff in E2. exfalso. destruct Hr; lra.
  - do 2 (apply andThen_not_None; right). apply andThen_not_None. left. rewrite H. simpl.
    destruct (n =? EmptyString) eqn:En.
    + apply String.eqb_eq in En. subst n. simpl in Hn. lia.
    + apply Nat.ltb_lt in Hn. rewrite Hn. discriminate.
Qed.

(** C9. A body that fails its schema is answered 400 with the first
    validation error and the document is left as it was, for add and for
    update; the malformed bodies that the specification lists (a missing
    required key, an unknown status, a rating outside 1 to 10, notes longer
    than 500 characters) all fail their schema; and an accepted update for
    an id that the library does not hold is answered 404, the document left
    as it was. *)
Theorem invalid_request_rejected :
  (forall now body user e,
      addGameSchema body = Some e ->
      postLibrary now body user = (respond 400 (JMessage (JoiMessage e)), user)) /\
  (forall now id body user e,
      updateGameSchema body = Some e ->
      putLibrary now id body user = (respond 400 (JMessage (JoiMessage e)), user)) /\
  (forall body, addBodyDefect body -> exists e, addGameSchema body = Some e) /\
  (forall body, updateBodyDefect body -> exists e, updateGameSchema body = Some e) /\
  (forall now id body user,
      updateGameSchema body = None ->
      idAbsent id (gameLibrary user) ->
      putLibrary now id body user
      = (respond 404 (JMessage (Text "Game not found in library")), user)).
Proof.
  split; [|split; [|split; [|split]]].
  - intros now body user e He. unfold postLibrary. rewrite He. reflexivity.
  - intros now id body user e He. unfold putLibrary. rewrite He. reflexivity.
  - intros body Hd. apply addBodyDefect_refused in Hd.
    destruct (addGameSchema body) as [e|]; [exists e; reflexivity|congruence].
  - intros body Hd. apply updateBodyDefect_refused in Hd.
    destruct (updateGameSchema body) as [e|]; [exists e; reflexivity|congruence].
  - intros now id body user Hvalid Habs. unfold putLibrary. rewrite Hvalid.
    assert (Hnone : getGame user id = None).
    { unfold getGame. apply find_None_all. intros y Hy.
      destruct id as [|z]; [reflexivity|]. simpl in *.
      apply Z.eqb_neq. intros Heq. apply Habs. apply in_map_iff. exists y. auto. }
    rewrite Hnone. reflexivity.
Qed.

Lemma invalid_request_rejected_witness :
  (exists e,
      updateGameSchema (updateBody (Value "finished") (Value (11 # 1)) Absent) = Some e /\
      putLibrary 6000 (Int 2) (updateBody (Value "finished") (Value (11 # 1)) Absent) sampleUser
      = (respond 400 (JMessage (JoiMessage e)), sampleUser)) /\
  putLibrary 6000 (Int 9) (updateBody Absent (Value (7 # 1)) Absent) sampleUser
  = (respond 404 (JMessage (Text "Game not found in library")), sampleUser).
Proof.
  destruct invalid_request_rejected as (_ & Hupd & _ & Hdefect & Hmissing).
  split.
  - destruct (Hdefect (updateBody (Value "finished") (Value (11 # 1)) Absent)) as [e He].
    + apply (upd_unknown_status _ "finished"); [reflexivity|].
      simpl. intuition discriminate.
    + exists e. split; [exact He|]. apply Hupd. exact He.
  - apply Hmissing; [reflexivity|]. simpl. intuition lia.
Defined.

(** The error reported is the first in schema order: here the status, not
    the rating. *)
Example first_error_is_reported :
  updateGameSchema (updateBody (Value "finished") (Value (11 # 1)) Absent)
  = Some {| Joi.path := [Joi.Key "status"]; Joi.type := Joi.any_only |}.
Proof. reflexivity. Qed.

(** ** Sorting *)

Section StableSort.

Context {A : Type}.
Variable comparefn : A -> A -> Q.

Lemma insert_Permutation (x : A) (l : list A) :
  Permutation (x :: l) (insert comparefn x l).
Proof.
  induction l as [|y l IH]; simpl; [apply Permutation_refl|].
  destruct (Qle_bool (comparefn x y) 0); [apply Permutation_refl|].
  eapply perm_trans; [apply perm_swap|]. apply perm_skip. exact IH.
Qed.

Lemma Array_sort_Permutation (l : list A) :
  Permutation l (Array_sort comparefn l).
Proof.
  induction l as [|x l IH]; simpl; [apply perm_nil|].
  eapply perm_trans; [apply perm_skip; exact IH|]. apply insert_Permutation.
Qed.

Lemma insert_In (x y : A) (l : list A) :
  In y (insert comparefn x l) -> y = x \/ In y l.
Proof.
  intros Hy. apply (Permutation_in y (Permutation_sym (insert_Permutation x l))) in Hy.
  destruct Hy as [->|Hy]; auto.
Qed.

Lemma tied_refl (Hc : consistent comparefn) (a : A) : tied comparefn a a = true.
Proof.
  unfold tied. apply Qeq_bool_iff.
  destruct (Q_dec (comparefn a a) 0) as [[Hlt|Hgt]|Heq]; [| |exact Heq].
  - pose proof (flip_neg _ Hc a a Hlt). lra.
  - pose proof (flip_pos _ Hc a a Hgt). lra.
Qed.

Lemma tied_sym (Hc : consistent comparefn) (a b : A) :
  tied comparefn a b = tied comparefn b a.
Proof.
  unfold tied.
  destruct (Qeq_bool (comparefn a b) 0) eqn:E1, (Qeq_bool (comparefn b a) 0) eqn:E2;
    try reflexivity.
  - apply Qeq_bool_iff in E1. apply (flip_zero _ Hc) in E1.
    apply Qeq_bool_iff in E1. congruence.
  - apply Qeq_bool_iff in E2. apply (flip_zero _ Hc) in E2.
    apply Qeq_bool_iff in E2. congruence.
Qed.

(** Two elements tied with a third one are not ordered strictly. *)
Lemma tied_notAfter (Hc : consistent comparefn) (a x y : A) :
  tied comparefn a x = true -> tied comparefn a y = true -> notAfter comparefn x y.
Proof.
  intros Hx Hy. rewrite tied_sym in Hx by assumption.
  apply Qeq_bool_iff in Hx. apply Qeq_bool_iff in Hy.
  apply (notAfter_trans _ Hc x a y); lra.
Qed.

(** Both ways not after means tied. *)
Lemma notAfter_both_tied (Hc : consistent comparefn) (x y : A) :
  notAfter comparefn x y -> notAfter comparefn y x -> tied comparefn x y = true.
Proof.
  unfold notAfter, tied. intros Hxy Hyx. apply Qeq_bool_iff.
  destruct (Q_dec (comparefn x y) 0) as [[Hlt|Hgt]|Heq]; [| |exact Heq].
  - pose proof (flip_neg _ Hc x y Hlt). lra.
  - lra.
Qed.

Lemma insert_sorted (Hc : consistent comparefn) (x : A) (l : list A) :
  StronglySorted (notAfter comparefn) l ->
  StronglySorted (notAfter comparefn) (insert comparefn x l).
Proof.
  induction l as [|y l IH]; intros Hs; simpl.
  - constructor; constructor.
  - apply StronglySorted_inv in Hs. destruct Hs as [Hs Hy].
    destruct (Qle_bool (comparefn x y) 0) eqn:E.
    + apply Qle_bool_iff in E. constructor.
      * constructor; assumption.
      * constructor; [exact E|].
        rewrite List.Forall_forall in Hy |- *. intros z Hz.
        apply (notAfter_trans _ Hc x y z); [exact E|]. apply Hy. exact Hz.
    + constructor; [apply IH; exact Hs|].
      rewrite List.Forall_forall in Hy |- *. intros z Hz.
      apply insert_In in Hz. destruct Hz as [->|Hz]; [|apply Hy; exact Hz].
      unfold notAfter.
      assert (Hgt : (0 < comparefn x y)%Q).
      { apply Qnot_le_lt. intros Hle. apply Qle_bool_iff in Hle. congruence. }
      pose proof (flip_pos _ Hc x y Hgt). lra.
Qed.

Lemma Array_sort_sorted (Hc : consistent comparefn) (l : list A) :
  StronglySorted (notAfter comparefn) (Array_sort comparefn l).
Proof.
  induction l as [|x l IH]; simpl; [constructor|]. apply insert_sorted; assumption.
Qed.

Lemma insert_stable (Hc : consistent comparefn) (a x : A) (l : list A) :
  List.filter (tied comparefn a) (insert comparefn x l)
  = List.filter (tied comparefn a) (x :: l).
Proof.
  induction l as [|y l IH]; [reflexivity|].
  simpl insert. destruct (Qle_bool (comparefn x y) 0) eqn:E; [reflexivity|].
  simpl. simpl in IH. rewrite IH.
  destruct (tied comparefn a x) eqn:Hx, (tied comparefn a y) eqn:Hy; try reflexivity.
  exfalso. pose proof (tied_notAfter Hc a x y Hx Hy) as Hle.
  apply Qle_bool_iff in Hle. congruence.
Qed.

Lemma Array_sort_stable (Hc : consistent comparefn) (a : A) (l : list A) :
  List.filter (tied comparefn a) (Array_sort comparefn l)
  = List.filter (tied comparefn a) l.
Proof.
  induction l as [|x l IH]; [reflexivity|].
  simpl Array_sort. rewrite insert_stable by assumption. simpl. rewrite IH. reflexivity.
Qed.


(** Two sorted lists with the same elements tied to each element, in the
    same order, are the same list. *)
Lemma sorted_stable_unique (Hc : consistent comparefn) (l1 l2 : list A) :
  StronglySorted (notAfter comparefn) l1 ->
  StronglySorted (notAfter comparefn) l2 ->
  (forall a, List.filter (tied comparefn a) l1 = List.filter (tied comparefn a) l2) ->
  l1 = l2.
Proof.
  revert l2. induction l1 as [|x t1 IH]; intros l2 Hs1 Hs2 Hsame.
  - destruct l2 as [|y t2]; [reflexivity|].
    specialize (Hsame y). simpl in Hsame. rewrite tied_refl in Hsame by assumption.
    discriminate.
  - destruct l2 as [|y t2].
    + specialize (Hsame x). simpl in Hsame. rewrite tied_refl in Hsame by assumption.
      discriminate.
    + apply StronglySorted_inv in Hs1. destruct Hs1 as [Hs1 Hx].
      apply StronglySorted_inv in Hs2. destruct Hs2 as [Hs2 Hy].
      assert (Hxy : tied comparefn x y = true).
      { destruct (tied comparefn x y) eqn:E; [reflexivity|]. exfalso.
        assert (Hyt1 : In y t1).
        { pose proof (Hsame y) as H. simpl in H.
          rewrite (tied_sym Hc y x), E, tied_refl in H by assumption.
          assert (Hin : In y (List.filter (tied comparefn y) t1)) by (rewrite H; left; reflexivity).
          apply filter_In in Hin. tauto. }
        assert (Hxt2 : In x t2).
        { pose proof (Hsame x) as H. simpl in H.
          rewrite E, tied_refl in H by assumption.
          assert (Hin : In x (List.filter (tied comparefn x) t2)) by (rewrite <- H; left; reflexivity).
          apply filter_In in Hin. tauto. }
        rewrite List.Forall_forall in Hx, Hy.
        pose proof (notAfter_both_tied Hc x y (Hx y Hyt1) (Hy x Hxt2)). congruence. }
      assert (Heq : x = y).
      { pose proof (Hsame x) as H. simpl in H.
        rewrite Hxy, tied_refl in H by assumption. congruence. }
      subst y. f_equal. apply IH; try assumption.
      intros a. specialize (Hsame a). simpl in Hsame.
      destruct (tied comparefn a x); congruence.
Qed.

(** The stable sort of a list is unique: whatever algorithm the host
    uses for [sort], it returns what [Array_sort] returns. *)
Lemma stableSortOf_unique (Hc : consistent comparefn) (l out : list A) :
  stableSortOf comparefn l out -> out = Array_sort comparefn l.
Proof.
  intros (_ & Hs & Hst).
  apply sorted_stable_unique; try assumption.
  - apply Array_sort_sorted; assumption.
  - intros a. rewrite Hst, Array_sort_stable by assumption. reflexivity.
Qed.

End StableSort.

(** ** The callback of the listing is consistent *)

Lemma consistent_opp {A : Type} (c : A -> A -> Q) :
  consistent c -> consistent (fun a b => - c a b)%Q.
Proof.
  intros Hc. split.
  - intros a b H. assert (Hlt : (c a b < 0)%Q) by lra.
    pose proof (flip_neg _ Hc a b Hlt). lra.
  - intros a b H. assert (Hgt : (0 < c a b)%Q) by lra.
    pose proof (flip_pos _ Hc a b Hgt). lra.
  - intros a b H. assert (Hz : (c a b == 0)%Q) by lra.
    pose proof (flip_zero _ Hc a b Hz). lra.
  - intros a b d Hab Hbd.
    destruct (Q_dec (c a d) 0) as [[Hlt|Hgt]|Heq]; [|lra|lra].
    exfalso.
    assert (Hba : (c b a <= 0)%Q).
    { destruct (Q_dec (c a b) 0) as [[H|H]|H]; [lra| |].
      - pose proof (flip_pos _ Hc a b H). lra.
      - pose proof (flip_zero _ Hc a b H). lra. }
    assert (Hdb : (c d b <= 0)%Q).
    { destruct (Q_dec (c b d) 0) as [[H|H]|H]; [lra| |].
      - pose proof (flip_pos _ Hc b d H). lra.
      - pose proof (flip_zero _ Hc b d H). lra. }
    pose proof (notAfter_trans _ Hc d b a Hdb Hba) as Hda.
    pose proof (flip_neg _ Hc a d Hlt). lra.
Qed.

Lemma consistent_difference {A : Type} (key : A -> Q) :
  consistent (fun a b => key a - key b)%Q.
Proof. split; intros; lra. Qed.

Lemma inject_Z_sub (x y : Z) : (inject_Z (x - y) == inject_Z x - inject_Z y)%Q.
Proof.
  unfold Z.sub. rewrite inject_Z_plus, inject_Z_opp. reflexivity.
Qed.

Lemma consistent_date_difference {A : Type} (key : A -> Z) :
  consistent (fun a b => inject_Z (key a - key b)).
Proof.
  split; intros *; rewrite ?inject_Z_sub; intros; lra.
Qed.

Lemma inject_Z_nonpos (z : Z) : (inject_Z z <= 0)%Q <-> (z <= 0)%Z.
Proof. change 0%Q with (inject_Z 0). rewrite <- Zle_Qle. reflexivity. Qed.

Lemma inject_Z_neg (z : Z) : (inject_Z z < 0)%Q <-> (z < 0)%Z.
Proof. change 0%Q with (inject_Z 0). rewrite <- Zlt_Qlt. reflexivity. Qed.

Lemma inject_Z_pos (z : Z) : (0 < inject_Z z)%Q <-> (0 < z)%Z.
Proof. change 0%Q with (inject_Z 0). rewrite <- Zlt_Qlt. reflexivity. Qed.

Lemma inject_Z_zero (z : Z) : (inject_Z z == 0)%Q <-> z = 0%Z.
Proof.
  change 0%Q with (inject_Z 0). split; [apply inject_Z_injective|intros ->; reflexivity].
Qed.

Lemma collation_sign (localeCompare : string -> string -> Z) (s t : string) :
  consistentCollation localeCompare ->
  ((0 < localeCompare s t)%Z -> (localeCompare t s < 0)%Z) /\
  ((localeCompare s t < 0)%Z -> (0 < localeCompare t s)%Z) /\
  (localeCompare s t = 0%Z -> localeCompare t s = 0%Z).
Proof.
  intros Hlc. pose proof (collation_flip _ Hlc s t) as Hflip.
  destruct (localeCompare s t) as [|p|p], (localeCompare t s) as [|q|q];
    simpl in Hflip; repeat split; intros; try lia; try discriminate.
Qed.

Lemma consistent_collation (localeCompare : string -> string -> Z) :
  consistentCollation localeCompare ->
  consistent (fun a b : GameEntry => inject_Z (localeCompare (name a) (name b))).
Proof.
  intros Hlc. split.
  - intros a b H. apply (proj1 (inject_Z_pos _)) in H. apply (proj2 (inject_Z_neg _)).
    apply (collation_sign localeCompare (name a) (name b) Hlc). exact H.
  - intros a b H. apply (proj1 (inject_Z_neg _)) in H. apply (proj2 (inject_Z_pos _)).
    apply (collation_sign localeCompare (name a) (name b) Hlc). exact H.
  - intros a b H. apply (proj1 (inject_Z_zero _)) in H. apply (proj2 (inject_Z_zero _)).
    apply (collation_sign localeCompare (name a) (name b) Hlc). exact H.
  - intros a b d Hab Hbd.
    apply (proj1 (inject_Z_nonpos _)) in Hab. apply (proj1 (inject_Z_nonpos _)) in Hbd.
    apply (proj2 (inject_Z_nonpos _)). apply (collation_trans _ Hlc _ (name b)); assumption.
Qed.

Lemma comparator_consistent (localeCompare : string -> string -> Z) (sortBy order : string) :
  consistentCollation localeCompare ->
  consistent (comparator localeCompare sortBy order).
Proof.
  intros Hlc. unfold comparator.
  assert (Hkey : consistent (fun a b : GameEntry =>
            if sortBy =? "name" then inject_Z (localeCompare (name a) (name b))
            else if sortBy =? "rating" then (toNumber (userRating a) - toNumber (userRating b))%Q
            else if sortBy =? "dateAdded" then inject_Z (dateAdded a - dateAdded b)
            else if sortBy =? "dateCompleted" then
              inject_Z (timeOf (dateCompleted a) - timeOf (dateCompleted b))
            else inject_Z (dateAdded a - dateAdded b))).
  { destruct (sortBy =? "name"); [apply consistent_collation; exact Hlc|].
    destruct (sortBy =? "rating");
      [apply (consistent_difference (fun g => toNumber (userRating g)))|].
    destruct (sortBy =? "dateAdded"); [apply (consistent_date_difference dateAdded)|].
    destruct (sortBy =? "dateCompleted");
      [apply (consistent_date_difference (fun g => timeOf (dateCompleted g)))|].
    apply (consistent_date_difference dateAdded). }
  destruct (order =? "asc"); [exact Hkey|].
  apply (consistent_opp _ Hkey).
Qed.


(** What the callback calls equal is equality on the key, in both
    directions. *)
Lemma comparator_tied (localeCompare : string -> string -> Z) (sortBy order : string)
      (a b : GameEntry) :
  tied (comparator localeCompare sortBy order) a b = true
  <-> keyTied localeCompare sortBy a b.
Proof.
  unfold tied, comparator, keyTied. rewrite Qeq_bool_iff.
  assert (Hz : forall z : Z, (inject_Z z == 0)%Q <-> z = 0%Z) by apply inject_Z_zero.
  assert (Hzo : forall z : Z, (- inject_Z z == 0)%Q <-> z = 0%Z).
  { intros z. rewrite <- Hz. split; intros; lra. }
  assert (Hsub : forall x y : Z, (x - y = 0)%Z <-> x = y) by (intros; lia).
  destruct (order =? "asc"), (sortBy =? "name"), (sortBy =? "rating"),
    (sortBy =? "dateAdded"), (sortBy =? "dateCompleted");
    first [ apply Hz | apply Hzo
          | rewrite Hz; apply Hsub | rewrite Hzo; apply Hsub
          | split; intros; lra ].
Qed.

Lemma StronglySorted_iff {A : Type} (R R' : A -> A -> Prop) (l : list A) :
  (forall a b, R a b <-> R' a b) -> StronglySorted R l -> StronglySorted R' l.
Proof.
  intros HR Hs. induction Hs as [|a l Hs IH Ha]; constructor; [exact IH|].
  rewrite List.Forall_forall in Ha |- *. intros x Hx. apply HR. apply Ha. exact Hx.
Qed.

Lemma codeUnitOrder_consistent : consistentCollation codeUnitOrder.
Proof.
  split.
  - intros s t. unfold codeUnitOrder. rewrite (String.compare_antisym s t).
    destruct (String.compare t s); reflexivity.
  - intros s t u. unfold codeUnitOrder.
    destruct (String.compare s t) eqn:Est; [| |intros H; lia].
    + apply String.compare_eq_iff in Est. subst t. intros _ H. exact H.
    + destruct (String.compare t u) eqn:Etu; [| |intros _ H; lia].
      * apply String.compare_eq_iff in Etu. subst u. rewrite Est. lia.
      * assert (Hsu : String.compare s u = Lt).
        { pose proof OrdersEx.String_as_OT.lt_strorder as [_ Htrans].
          exact (Htrans s t u Est Etu). }
        rewrite Hsu. lia.
Qed.

(** ** Listing *)

(** The selection, case by case. *)
Lemma matching_cases (lib : list GameEntry) :
  matching None lib = lib /\
  matching (Some EmptyString) lib = lib /\
  (forall s, s <> EmptyString ->
             matching (Some s) lib = List.filter (fun g => status g =? s) lib).
Proof.
  repeat split. intros s Hs. simpl.
  apply String.eqb_neq in Hs. rewrite Hs. reflexivity.
Qed.

Lemma matching_falsy (status' : option string) (lib : list GameEntry) :
  truthy status' = false -> matching status' lib = lib.
Proof.
  destruct status' as [s|]; simpl; [|reflexivity].
  destruct (s =? EmptyString); [reflexivity|discriminate].
Qed.

Lemma matching_truthy (status' : option string) (lib : list GameEntry) :
  truthy status' = true -> matching status' lib = List.filter (hasStatus status') lib.
Proof.
  destruct status' as [s|]; simpl; [|discriminate].
  destruct (s =? EmptyString); [discriminate|reflexivity].
Qed.

(** Without a status the handler sorts the array of the user document. *)
Lemma getLibrary_unfiltered (localeCompare : string -> string -> Z) (q : Query)
      (arr : loc) (h : Store) (lib : list GameEntry) :
  h !! arr = Some lib ->
  truthy (q_status q) = false ->
  getLibrary localeCompare q arr h
  = Some (respond 200
            (JGames (Array_sort (comparator localeCompare (default "dateAdded" (q_sortBy q))
                                            (default "desc" (q_order q))) lib)),
          <[arr := Array_sort (comparator localeCompare (default "dateAdded" (q_sortBy q))
                                          (default "desc" (q_order q))) lib]> h).
Proof.
  intros Hlook Hfalsy. unfold getLibrary, Array_sort_in_place.
  rewrite Hfalsy. simpl. rewrite Hlook. simpl. rewrite lookup_insert_eq. reflexivity.
Qed.

(** With a status it sorts the array that [filter] allocated. *)
Lemma getLibrary_filtered (localeCompare : string -> string -> Z) (q : Query)
      (arr : loc) (h : Store) (lib : list GameEntry) :
  h !! arr = Some lib ->
  truthy (q_status q) = true ->
  getLibrary localeCompare q arr h
  = Some (respond 200
            (JGames (Array_sort (comparator localeCompare (default "dateAdded" (q_sortBy q))
                                            (default "desc" (q_order q)))
                                (List.filter (hasStatus (q_status q)) lib))),
          <[fresh (dom h) :=
              Array_sort (comparator localeCompare (default "dateAdded" (q_sortBy q))
                                     (default "desc" (q_order q)))
                         (List.filter (hasStatus (q_status q)) lib)]> h).
Proof.
  intros Hlook Htruthy. unfold getLibrary, Array_filter, Array_sort_in_place.
  rewrite Htruthy. simpl. rewrite Hlook. simpl.
  rewrite lookup_insert_eq. simpl. rewrite lookup_insert_eq. simpl.
  rewrite insert_insert_eq. reflexivity.
Qed.

Lemma fresh_unallocated (h : Store) : h !! fresh (dom h) = None.
Proof. apply not_elem_of_dom. apply is_fresh. Qed.



(** Listings of the sample library: by name, by rating (unrated entries
    count as 0, the tie between equal ratings keeps library order both
    ways), and by default (date added, newest first). *)
Example listing_by_name :
  Array_sort (comparator codeUnitOrder "name" "asc") [hades; celeste; portal; tetris]
  = [celeste; hades; portal; tetris].
Proof. reflexivity. Qed.

Example listing_by_rating_desc :
  Array_sort (comparator codeUnitOrder "rating" "desc") [hades; celeste; portal; tetris]
  = [hades; portal; tetris; celeste].
Proof. reflexivity. Qed.

Example listing_by_rating_asc :
  Array_sort (comparator codeUnitOrder "rating" "asc") [hades; celeste; portal; tetris]
  = [celeste; portal; tetris; hades].
Proof. reflexivity. Qed.

(** C10. Without a status filter the listing sorts the library array of
    the in-memory user document itself: afterwards that array holds the
    sorted entries, so its element order can change (it does for the sample
    library). With a status filter the library array is as before, and the
    sorted array is a new one. *)
Theorem listing_sorts_library_in_place :
  (forall (localeCompare : string -> string -> Z) (q : Query) (arr : loc) (h : Store)
          (lib : list GameEntry),
      h !! arr = Some lib ->
      exists response h',
        getLibrary localeCompare q arr h = Some (response, h') /\
        (truthy (q_status q) = false ->
         h' = <[arr := Array_sort (comparator localeCompare
                                     (default "dateAdded" (q_sortBy q))
                                     (default "desc" (q_order q))) lib]> h /\
         h' !! arr = Some (Array_sort (comparator localeCompare
                                         (default "dateAdded" (q_sortBy q))
                                         (default "desc" (q_order q))) lib)) /\
        (truthy (q_status q) = true ->
         h' !! arr = Some lib /\
         exists new, h !! new = None /\ new <> arr /\
                     forall other, other <> new -> h' !! other = h !! other)) /\
  (exists h',
      snd <$> getLibrary codeUnitOrder (query None None None) 1%positive sampleStore = Some h' /\
      sampleStore !! 1%positive = Some [hades; celeste; portal] /\
      h' !! 1%positive = Some [portal; celeste; hades]).
Proof.
  split.
  - intros localeCompare q arr h lib Hlook.
    destruct (truthy (q_status q)) eqn:Ht.
    + eexists. eexists. split; [apply getLibrary_filtered; eassumption|].
      split; [discriminate|]. intros _.
      assert (Hne : fresh (dom h) <> arr).
      { intros Heq. pose proof (fresh_unallocated h) as Hf. rewrite Heq in Hf. congruence. }
      split.
      * rewrite lookup_insert_ne by exact Hne. exact Hlook.
      * exists (fresh (dom h)). split; [apply fresh_unallocated|]. split; [exact Hne|].
        intros other Hother. rewrite lookup_insert_ne by congruence. reflexivity.
    + eexists. eexists. split; [apply getLibrary_unfiltered; eassumption|].
      split; [|discriminate]. intros _. split; [reflexivity|]. apply lookup_insert_eq.
  - eexists. split; [|split].
    + rewrite (getLibrary_unfiltered codeUnitOrder (query None None None) 1%positive
                 sampleStore [hades; celeste; portal]) by reflexivity.
      reflexivity.
    + reflexivity.
    + simpl. rewrite lookup_insert_eq. reflexivity.
Qed.

Lemma listing_sorts_library_in_place_witness :
  exists response h',
    getLibrary codeUnitOrder (query (Some "completed") None (Some "asc")) 1%positive sampleStore
    = Some (response, h') /\
    h' !! 1%positive = Some [hades; celeste; portal].
Proof.
  destruct (proj1 listing_sorts_library_in_place codeUnitOrder
              (query (Some "completed") None (Some "asc")) 1%positive sampleStore
              [hades; celeste; portal] eq_refl)
    as (response & h' & Hrun & _ & Hfiltered).
  exists response, h'. split; [exact Hrun|]. apply Hfiltered. reflexivity.
Defined.

(** * Further properties of the routes *)

(** ** Looking an entry up *)

Lemma getGame_absent (user : User) (id : ParsedInt) :
  idAbsent id (gameLibrary user) -> getGame user id = None.
Proof.
  intros Habs. unfold getGame. apply find_None_all. intros y Hy.
  destruct id as [|z]; [reflexivity|]. simpl in *.
  apply Z.eqb_neq. intros Heq. apply Habs. apply in_map_iff. exists y. auto.
Qed.

Lemma getGame_present (user : User) (z : Z) :
  In z (map gameId (gameLibrary user)) ->
  exists l1 e l2,
    gameLibrary user = (l1 ++ e :: l2)%list /\ gameId e = z /\
    ~ In z (map gameId l1) /\ getGame user (Int z) = Some e.
Proof.
  intros Hin. unfold getGame.
  destruct (find (fun game => sameId (gameId game) (Int z)) (gameLibrary user)) as [e|] eqn:Hf.
  - destruct (find_Some_split _ _ _ Hf) as (l1 & l2 & Hlib & He & Hl1).
    exists l1, e, l2. apply sameId_Int in He. repeat split; auto.
    intros Hz. apply in_map_iff in Hz. destruct Hz as (y & Hy & Hyin).
    specialize (Hl1 y Hyin). simpl in Hl1. apply Z.eqb_neq in Hl1. congruence.
  - exfalso. rewrite find_None_all in Hf.
    apply in_map_iff in Hin. destruct Hin as (y & Hy & Hyin).
    specialize (Hf y Hyin). simpl in Hf. apply Z.eqb_neq in Hf. congruence.
Qed.

(** X1. GET /library/:gameId answers 404 for an id the library does not
    hold (and for a parameter that is not a number), and otherwise 200 with
    the first entry that has the id. *)
Theorem lookup_by_id (id : ParsedInt) (user : User) :
  (idAbsent id (gameLibrary user) ->
   getLibraryGame id user = Failed 404 "Game not found in library") /\
  (forall z, id = Int z -> In z (map gameId (gameLibrary user)) ->
     exists l1 e l2,
       gameLibrary user = (l1 ++ e :: l2)%list /\ gameId e = z /\
       ~ In z (map gameId l1) /\ getLibraryGame id user = Sent 200 e).
Proof.
  split.
  - intros Habs. unfold getLibraryGame. rewrite (getGame_absent _ _ Habs). reflexivity.
  - intros z -> Hin. destruct (getGame_present user z Hin) as (l1 & e & l2 & H1 & H2 & H3 & H4).
    exists l1, e, l2. unfold getLibraryGame. rewrite H4. auto.
Qed.

Lemma lookup_by_id_witness :
  getLibraryGame NaN sampleUser = Failed 404 "Game not found in library" /\
  exists l1 e l2,
    gameLibrary sampleUser = (l1 ++ e :: l2)%list /\ gameId e = 3%Z /\
    ~ In 3%Z (map gameId l1) /\ getLibraryGame (Int 3) sampleUser = Sent 200 e.
Proof.
  split.
  - apply (proj1 (lookup_by_id NaN sampleUser)). exact I.
  - apply (proj2 (lookup_by_id (Int 3) sampleUser) 3%Z); [reflexivity|]. simpl. auto.
Defined.


Lemma find_app_skip {A : Type} (p : A -> bool) (l : list A) (x : A) :
  p x = false -> find p (l ++ [x]) = find p l.
Proof.
  intros Hx. induction l as [|a l IH]; simpl; [rewrite Hx; reflexivity|].
  destruct (p a); [reflexivity|exact IH].
Qed.




Lemma getGame_after_update
      (now : Z) (id : ParsedInt) (body : UpdateGameBody) (user : User) (game : GameEntry) :
  updateGameSchema body = None ->
  getGame user id = Some game ->
  getGame (snd (putLibrary now id body user)) id = Some (updateEntry now body game).
Proof.
  intros Hvalid Hget.
  destruct (find_Some_split _ _ _ Hget) as (l1 & l2 & Hlib & Hp & Hl1).
  unfold putLibrary. rewrite Hvalid, Hget. simpl.
  unfold getGame. simpl.
  rewrite Hlib, (mutateFound_split _ _ l1 l2 game Hl1 Hp).
  clear Hlib. induction l1 as [|a l1 IH]; simpl.
  - rewrite updateEntry_gameId, Hp. reflexivity.
  - rewrite (Hl1 a (or_introl eq_refl)). apply IH. intros y Hy. apply Hl1. right. exact Hy.
Qed.

(** X3. After an accepted update of an entry that exists, a lookup of the
    id returns the entry as updated, the one the response carries. *)
Theorem update_then_lookup
        (now : Z) (id : ParsedInt) (body : UpdateGameBody) (user : User) (game : GameEntry) :
  updateGameSchema body = None ->
  getGame user id = Some game ->
  getLibraryGame id (snd (putLibrary now id body user)) = Sent 200 (updateEntry now body game) /\
  json (fst (putLibrary now id body user))
  = JMessageGame (Text "Game updated successfully") (Some (updateEntry now body game)).
Proof.
  intros Hvalid Hget. split.
  - unfold getLibraryGame. rewrite (getGame_after_update now id body user game Hvalid Hget).
    reflexivity.
  - unfold putLibrary. rewrite Hvalid, Hget. reflexivity.
Qed.

Lemma update_then_lookup_witness :
  getLibraryGame (Int 2)
    (snd (putLibrary 6000 (Int 2) (updateBody (Value "dropped") (Value (4 # 1)) (Value "too hard"))
                     sampleUser))
  = Sent 200 (updateEntry 6000 (updateBody (Value "dropped") (Value (4 # 1)) (Value "too hard"))
                          celeste) /\
  json (fst (putLibrary 6000 (Int 2)
                        (updateBody (Value "dropped") (Value (4 # 1)) (Value "too hard")) sampleUser))
  = JMessageGame (Text "Game updated successfully")
      (Some (updateEntry 6000 (updateBody (Value "dropped") (Value (4 # 1)) (Value "too hard"))
                         celeste)).
Proof.
  apply (update_then_lookup 6000 (Int 2)
           (updateBody (Value "dropped") (Value (4 # 1)) (Value "too hard")) sampleUser celeste);
    reflexivity.
Defined.

(** X4. With unique ids, after a remove that found its entry the id is
    gone: a lookup of it and a second remove are both answered 404, and the
    second remove changes nothing. *)
Theorem remove_then_gone (z : Z) (user : User) :
  List.NoDup (map gameId (gameLibrary user)) ->
  In z (map gameId (gameLibrary user)) ->
  statusCode (fst (deleteLibrary (Int z) user)) = 200%Z /\
  getLibraryGame (Int z) (snd (deleteLibrary (Int z) user))
  = Failed 404 "Game not found in library" /\
  deleteLibrary (Int z) (snd (deleteLibrary (Int z) user))
  = (respond 404 (JMessage (Text "Game not found in library")),
     snd (deleteLibrary (Int z) user)).
Proof.
  intros Hnd Hin.
  assert (Hgone : idAbsent (Int z) (gameLibrary (snd (deleteLibrary (Int z) user))) /\
                  statusCode (fst (deleteLibrary (Int z) user)) = 200%Z).
  { unfold deleteLibrary.
    destruct (findIndex (fun game => sameId (gameId game) (Int z)) (gameLibrary user))
      as [i|] eqn:Hfi.
    - destruct (findIndex_Some _ _ _ Hfi) as (l1 & e & l2 & Hlib & Hlen & He & Hl1).
      split; [|reflexivity]. simpl. rewrite Hlib, <- Hlen, splice1_app.
      rewrite Hlib, map_app in Hnd. simpl in Hnd. apply List.NoDup_remove_2 in Hnd.
      apply (proj1 (sameId_Int _ _)) in He. rewrite map_app. congruence.
    - exfalso. rewrite findIndex_None in Hfi.
      apply in_map_iff in Hin. destruct Hin as (y & Hy & Hyin).
      specialize (Hfi y Hyin). simpl in Hfi. apply Z.eqb_neq in Hfi. congruence. }
  destruct Hgone as [Hgone Hcode].
  split; [exact Hcode|]. split.
  - unfold getLibraryGame. rewrite (getGame_absent _ _ Hgone). reflexivity.
  - generalize dependent (snd (deleteLibrary (Int z) user)). intros u' Hgone.
    unfold deleteLibrary.
    assert (Hnone : findIndex (fun game => sameId (gameId game) (Int z)) (gameLibrary u') = None).
    { apply findIndex_None. intros y Hy. simpl in *. apply Z.eqb_neq. intros Heq.
      apply Hgone. apply in_map_iff. exists y. auto. }
    rewrite Hnone. reflexivity.
Qed.

Lemma remove_then_gone_witness :
  statusCode (fst (deleteLibrary (Int 2) sampleUser)) = 200%Z /\
  getLibraryGame (Int 2) (snd (deleteLibrary (Int 2) sampleUser))
  = Failed 404 "Game not found in library" /\
  deleteLibrary (Int 2) (snd (deleteLibrary (Int 2) sampleUser))
  = (respond 404 (JMessage (Text "Game not found in library")),
     snd (deleteLibrary (Int 2) sampleUser)).
Proof.
  apply (remove_then_gone 2 sampleUser).
  - simpl. repeat constructor; simpl; intuition lia.
  - simpl. auto.
Defined.

(** Without unique ids a remove deletes one entry only: the id can still
    be there afterwards. *)
Example remove_leaves_duplicate :
  getLibraryGame (Int 2)
    (snd (deleteLibrary (Int 2) {| gameLibrary := [celeste; hades; celeste];
                                   stats := stats newUser |}))
  = Sent 200 celeste.
Proof. reflexivity. Qed.

Lemma find_mutateFound_other {A : Type} (p p' : A -> bool) (f : A -> A) (l : list A) :
  (forall x, p' (f x) = p' x) ->
  (forall x, p x = true -> p' x = false) ->
  find p' (mutateFound p f l) = find p' l.
Proof.
  intros Hf Hdisj. induction l as [|a l IH]; simpl; [reflexivity|].
  destruct (p a) eqn:Hpa; simpl.
  - rewrite Hf, (Hdisj a Hpa). reflexivity.
  - destruct (p' a); [reflexivity|exact IH].
Qed.

Lemma find_remove_other {A : Type} (p' : A -> bool) (l1 l2 : list A) (x : A) :
  p' x = false -> find p' (l1 ++ l2) = find p' (l1 ++ x :: l2).
Proof.
  intros Hx. induction l1 as [|a l1 IH]; simpl; [rewrite Hx; reflexivity|].
  destruct (p' a); [reflexivity|exact IH].
Qed.

(** X5. A request about one id never changes what a lookup of another id
    returns, whatever the request and whether it succeeds. *)
Theorem other_ids_untouched (now : Z) (req : Request) (user : User) (z : Z) :
  ~ touches req z ->
  getLibraryGame (Int z) (snd (handle now req user)) = getLibraryGame (Int z) user.
Proof.
  intros Hother. unfold getLibraryGame.
  assert (Hget : getGame (snd (handle now req user)) (Int z) = getGame user (Int z));
    [|rewrite Hget; reflexivity].
  destruct req as [body|id body|id]; simpl in *.
  - unfold postLibrary.
    destruct (addGameSchema body); [reflexivity|].
    destruct (add_gameId body) as [| |gid]; [reflexivity ..|].
    destruct (add_name body) as [| |nm]; [reflexivity ..|].
    destruct (add_status body) as [| |st]; [reflexivity ..|].
    destruct (hasGame user gid); [reflexivity|].
    unfold getGame. simpl. apply find_app_skip. simpl.
    apply Z.eqb_neq. intros Heq. apply Hother. congruence.
  - unfold putLibrary.
    destruct (updateGameSchema body); [reflexivity|].
    destruct (getGame user id); [|reflexivity].
    unfold getGame. simpl. apply find_mutateFound_other.
    + intros x. rewrite updateEntry_gameId. reflexivity.
    + intros x Hx. destruct id as [|z']; [discriminate|]. simpl in *.
      apply Z.eqb_eq in Hx. apply Z.eqb_neq. intros Heq. apply Hother. congruence.
  - unfold deleteLibrary.
    destruct (findIndex _ _) as [i|] eqn:Hfi; [|reflexivity].
    destruct (findIndex_Some _ _ _ Hfi) as (l1 & x & l2 & Hlib & Hlen & Hx & _).
    unfold getGame. simpl. rewrite Hlib, <- Hlen, splice1_app.
    apply find_remove_other.
    destruct id as [|z']; [discriminate|]. simpl in *.
    apply Z.eqb_eq in Hx. apply Z.eqb_neq. intros Heq. apply Hother. congruence.
Qed.

Lemma other_ids_untouched_witness :
  getLibraryGame (Int 3) (snd (handle 6000 (Remove (Int 2)) sampleUser))
  = getLibraryGame (Int 3) sampleUser.
Proof.
  apply (other_ids_untouched 6000 (Remove (Int 2)) sampleUser 3).
  simpl. intros H. discriminate H.
Defined.

(** ** Requests that fail, and requests that are repeated *)






Lemma updateEntry_replay (now now' : Z) (body : UpdateGameBody) (g : GameEntry) :
  updateEntry now' body (updateEntry now body g) = updateEntry now body g.
Proof.
  unfold updateEntry, completionDate, assignKeys.
  destruct (upd_status body) as [| |s]; simpl.
  - destruct (upd_userRating body), (upd_notes body); reflexivity.
  - destruct (upd_userRating body), (upd_notes body); reflexivity.
  - destruct (s =? "completed") eqn:Es; simpl.
    + destruct (upd_userRating body), (upd_notes body); simpl; rewrite Es; simpl;
        rewrite ?Es; reflexivity.
    + destruct (upd_userRating body), (upd_notes body); reflexivity.
Qed.

Lemma mutateFound_twice {A : Type} (p : A -> bool) (f f' : A -> A) (l : list A) :
  (forall x, p (f x) = p x) -> (forall x, f' (f x) = f x) ->
  mutateFound p f' (mutateFound p f l) = mutateFound p f l.
Proof.
  intros Hp Hf. induction l as [|a l IH]; simpl; [reflexivity|].
  destruct (p a) eqn:Hpa; simpl.
  - rewrite Hp, Hpa, Hf. reflexivity.
  - rewrite Hpa, IH. reflexivity.
Qed.

(** X8. Replaying an update changes nothing: the same body sent again for
    the same id, at any later time, gets the same response and leaves the
    document as the first update left it. *)
Theorem update_replay (now now' : Z) (id : ParsedInt) (body : UpdateGameBody) (user : User) :
  putLibrary now' id body (snd (putLibrary now id body user)) = putLibrary now id body user.
Proof.
  destruct (updateGameSchema body) as [e|] eqn:Hvalid.
  - unfold putLibrary. rewrite Hvalid. reflexivity.
  - destruct (getGame user id) as [game|] eqn:Hget.
    + pose proof (getGame_after_update now id body user game Hvalid Hget) as Hget'.
      assert (Hfirst : putLibrary now id body user
                       = (respond 200 (JMessageGame (Text "Game updated successfully")
                                         (Some (updateEntry now body game))),
                          updateStats
                            (set_gameLibrary
                               (mutateFound (fun g => sameId (gameId g) id)
                                  (updateEntry now body) (gameLibrary user)) user))).
      { unfold putLibrary. rewrite Hvalid, Hget. reflexivity. }
      unfold putLibrary at 1. rewrite Hvalid, Hget'. rewrite Hfirst.
      cbv beta iota zeta delta [fst snd]. rewrite updateEntry_replay.
      f_equal. unfold updateStats, set_gameLibrary. cbn [gameLibrary stats].
      rewrite mutateFound_twice; [reflexivity| |].
      * intros x. rewrite updateEntry_gameId. reflexivity.
      * intros x. apply updateEntry_replay.
    + unfold putLibrary. rewrite Hvalid, Hget. simpl. rewrite Hget. reflexivity.
Qed.

(** The update that C4 fails on, sent twice: the second time the entry is
    already completed, and the date is still null. *)
Example update_replay_sample :
  putLibrary 9000 (Int 2) (updateBody (Value "completed") Absent Absent)
             (snd (putLibrary 6000 (Int 2) (updateBody (Value "completed") Absent Absent)
                              sampleUser))
  = putLibrary 6000 (Int 2) (updateBody (Value "completed") Absent Absent) sampleUser.
Proof. reflexivity. Qed.

(** ** What an add does to the stats *)

Lemma filter_app_last {A : Type} (p : A -> bool) (l : list A) (x : A) :
  List.filter p (l ++ [x]) = (List.filter p l ++ if p x then [x] else [])%list.
Proof. rewrite List.filter_app. simpl. destruct (p x); reflexivity. Qed.

Lemma rated_after_add (lib : list GameEntry) (now id : Z) (nm st : string) (body : AddGameBody) :
  List.filter (fun game => notNull (userRating game))
    (List.filter (fun game => status game =? "completed")
       (lib ++ [castEntry now id nm st body]))
  = List.filter (fun game => notNull (userRating game))
      (List.filter (fun game => status game =? "completed") lib).
Proof.
  rewrite !List.filter_app. simpl.
  destruct (st =? "completed"); simpl; rewrite app_nil_r; reflexivity.
Qed.

(** X9. An add that is answered 201 raises [totalGames] by one, raises
    [completedGames] by one exactly when the game is added as completed,
    and leaves [averageRating] at the value the library before the add
    gives: a new entry has no user rating. *)
Theorem add_effect_on_stats (now : Z) (body : AddGameBody) (user : User) :
  statusCode (fst (postLibrary now body user)) = 201%Z ->
  exists st,
    add_status body = Value st /\
    totalGames (stats (snd (postLibrary now body user))) = S (length (gameLibrary user)) /\
    completedGames (stats (snd (postLibrary now body user)))
    = (countStatus "completed" (gameLibrary user) + if (st =? "completed")%string then 1 else 0)%nat /\
    averageRating (stats (snd (postLibrary now body user)))
    = averageRating (stats (updateStats user)).
Proof.
  unfold postLibrary.
  destruct (addGameSchema body) eqn:Hvalid; [discriminate|].
  destruct (add_gameId body) as [| |id] eqn:Hid; [discriminate ..|].
  destruct (add_name body) as [| |nm] eqn:Hnm; [discriminate ..|].
  destruct (add_status body) as [| |st] eqn:Hst; [discriminate ..|].
  destruct (hasGame user id) eqn:Hhas; [discriminate|].
  intros _. exists st. split; [reflexivity|].
  cbv beta iota zeta delta [fst snd]. unfold updateStats, set_gameLibrary, countStatus.
  cbn [stats gameLibrary totalGames completedGames averageRating].
  split; [rewrite length_app; simpl; lia|]. split.
  - rewrite filter_app_last, length_app. cbn [status castEntry].
    destruct (st =? "completed"); reflexivity.
  - rewrite rated_after_add. reflexivity.
Qed.

Lemma add_effect_on_stats_witness :
  exists st,
    add_status (addBody 7 "Doom" "completed") = Value st /\
    totalGames (stats (snd (postLibrary 5000 (addBody 7 "Doom" "completed") sampleUser)))
    = S (length (gameLibrary sampleUser)) /\
    completedGames (stats (snd (postLibrary 5000 (addBody 7 "Doom" "completed") sampleUser)))
    = (countStatus "completed" (gameLibrary sampleUser)
       + if (st =? "completed")%string then 1 else 0)%nat /\
    averageRating (stats (snd (postLibrary 5000 (addBody 7 "Doom" "completed") sampleUser)))
    = averageRating (stats (updateStats sampleUser)).
Proof.
  apply (add_effect_on_stats 5000 (addBody 7 "Doom" "completed") sampleUser). reflexivity.
Defined.

(** ** What the schemas keep out of the library *)

Lemma addGameSchema_name (b : AddGameBody) (nm : string) :
  addGameSchema b = None -> add_name b = Value nm -> nm <> EmptyString.
Proof.
  unfold addGameSchema. rewrite !andThen_None. intros (_ & Hnm & _) Hb.
  rewrite Hb in Hnm. simpl in Hnm.
  destruct (nm =? EmptyString) eqn:E; [discriminate|]. apply String.eqb_neq. exact E.
Qed.

Lemma castEntry_valid (now id : Z) (nm st : string) (body : AddGameBody) :
  In st statuses -> nm <> EmptyString -> validEntry (castEntry now id nm st body).
Proof.
  intros Hst Hnm. unfold validEntry. simpl. repeat split; auto.
  - discriminate.
  - discriminate.
  - lia.
Qed.

Lemma updateEntry_valid (now : Z) (body : UpdateGameBody) (g : GameEntry) :
  updateGameSchema body = None -> validEntry g -> validEntry (updateEntry now body g).
Proof.
  intros Hvalid (Hst & Hr & Hn & Hnm).
  destruct (updateGameSchema_accepts body Hvalid) as (Hs & Hrating & Hnotes & _).
  pose proof (updateEntry_mergedKeys now body g) as (Ks & Kr & Kn & Ks' & Kr' & Kr0 & Kn').
  pose proof (updateEntry_sameFixedKeys now body g) as (_ & Kname & _).
  unfold validEntry. split; [|split; [|split]].
  - destruct Hs as [Habs|(st & Hval & Hin)].
    + rewrite (Ks Habs). exact Hst.
    + rewrite (Ks' st Hval). exact Hin.
  - intros r Hr'. destruct (upd_userRating body) as [| |r0] eqn:Eu.
    + rewrite (Kr eq_refl) in Hr'. apply Hr. exact Hr'.
    + rewrite (Kr0 eq_refl) in Hr'. discriminate.
    + rewrite (Kr' r0 eq_refl) in Hr'. injection Hr' as <-. apply Hrating. reflexivity.
  - destruct Hnotes as [Habs|(n & Hval & Hlen)].
    + rewrite (Kn Habs). exact Hn.
    + rewrite (Kn' n Hval). exact Hlen.
  - rewrite Kname. exact Hnm.
Qed.

Lemma handle_valid (now : Z) (req : Request) (user : User) :
  Forall validEntry (gameLibrary user) ->
  Forall validEntry (gameLibrary (snd (handle now req user))).
Proof.
  intros Hinv. destruct req as [body|id body|id]; simpl.
  - unfold postLibrary.
    destruct (addGameSchema body) eqn:Hvalid; [exact Hinv|].
    destruct (addGameSchema_accepts body Hvalid) as (id & nm & st & Hid & Hnm & Hst & Hin & _).
    rewrite Hid, Hnm, Hst.
    destruct (hasGame user id); [exact Hinv|].
    simpl. apply Forall_app. split; [exact Hinv|].
    constructor; [|constructor]. apply castEntry_valid; [exact Hin|].
    apply (addGameSchema_name body nm Hvalid Hnm).
  - unfold putLibrary.
    destruct (updateGameSchema body) eqn:Hvalid; [exact Hinv|].
    destruct (getGame user id); [|exact Hinv].
    simpl. apply List.Forall_forall. intros y Hy.
    rewrite List.Forall_forall in Hinv.
    apply mutateFound_In in Hy. destruct Hy as [Hy|(x & Hx & ->)]; [apply Hinv; exact Hy|].
    apply updateEntry_valid; [exact Hvalid|apply Hinv; exact Hx].
  - unfold deleteLibrary.
    destruct (findIndex _ _) as [i|] eqn:Hfi; [|exact Hinv].
    destruct (findIndex_Some _ _ _ Hfi) as (l1 & x & l2 & Hlib & Hlen & _ & _).
    simpl. rewrite Hlib, <- Hlen, splice1_app.
    rewrite Hlib in Hinv. apply Forall_app in Hinv. destruct Hinv as [H1 H2].
    apply Forall_app. split; [exact H1|]. inversion H2; assumption.
Qed.

(** X10. The routes keep the library well formed: if every entry has one
    of the four statuses, a user rating that is null or between 1 and 10,
    notes of at most 500 characters and a name that is not empty, then so
    does every entry after any sequence of requests. *)
Theorem valid_entries_preserved (reqs : list (Z * Request)) (user : User) :
  Forall validEntry (gameLibrary user) ->
  Forall validEntry (gameLibrary (run reqs user)).
Proof.
  revert user. induction reqs as [|[now req] reqs IH]; intros user Hinv; simpl; [exact Hinv|].
  apply IH. apply handle_valid. exact Hinv.
Qed.

Lemma sampleUser_valid : Forall validEntry (gameLibrary sampleUser).
Proof.
  assert (Hentry : forall id nm st r added done,
             In st statuses -> nm <> EmptyString ->
             (forall q, r = Some q -> (1 <= q <= 10)%Q) ->
             validEntry (entry id nm st r added done)).
  { intros id nm st r added done Hst Hnm Hr. unfold validEntry. simpl.
    split; [exact Hst|]. split; [exact Hr|]. split; [lia|exact Hnm]. }
  simpl. constructor; [|constructor; [|constructor; [|constructor]]].
  - apply Hentry; [simpl; auto|discriminate|].
    intros q [= <-]. split; apply Qle_bool_iff; reflexivity.
  - apply Hentry; [simpl; auto|discriminate|]. intros q Hq. discriminate Hq.
  - apply Hentry; [simpl; auto|discriminate|].
    intros q [= <-]. split; apply Qle_bool_iff; reflexivity.
Qed.

Lemma valid_entries_preserved_witness :
  Forall validEntry
    (gameLibrary (run [(5000%Z, Add (addBody 7 "Doom" "plan-to-play"));
                       (6000%Z, Update (Int 7) (updateBody (Value "playing") (Value (15 # 2))
                                                           (Value "so far so good")));
                       (7000%Z, Remove (Int 1))]
                      sampleUser)).
Proof.
  apply (valid_entries_preserved
           [(5000%Z, Add (addBody 7 "Doom" "plan-to-play"));
            (6000%Z, Update (Int 7) (updateBody (Value "playing") (Value (15 # 2))
                                                (Value "so far so good")));
            (7000%Z, Remove (Int 1))]
           sampleUser).
  exact sampleUser_valid.
Defined.

(** ** The range of the average *)

Lemma completedRatings_range (lib : list GameEntry) :
  Forall validEntry lib -> Forall (fun r => 1 <= r <= 10)%Q (completedRatings lib).
Proof.
  induction 1 as [|g lib Hg _ IH]; simpl; [constructor|].
  destruct (status g =? "completed"); [|exact IH].
  destruct (userRating g) as [r|] eqn:Er; [|exact IH].
  constructor; [|exact IH]. destruct Hg as (_ & Hr & _). apply Hr. exact Er.
Qed.

Lemma Qsum_range (lo hi : Q) (qs : list Q) :
  Forall (fun r => lo <= r <= hi)%Q qs ->
  (lo * inject_Z (Z.of_nat (length qs)) <= Qsum qs
   /\ Qsum qs <= hi * inject_Z (Z.of_nat (length qs)))%Q.
Proof.
  induction 1 as [|r qs [Hlo Hhi] _ [IHlo IHhi]].
  - change (inject_Z (Z.of_nat (length (@nil Q)))) with 0%Q.
    change (Qsum []) with 0%Q. split; lra.
  - cbn [length Qsum fold_right]. fold (Qsum qs).
    rewrite Nat2Z.inj_succ. unfold Z.succ. rewrite inject_Z_plus.
    change (inject_Z 1) with 1%Q. split; lra.
Qed.

Lemma mean_range (lo hi : Q) (qs : list Q) :
  qs <> [] -> Forall (fun r => lo <= r <= hi)%Q qs -> (lo <= mean qs <= hi)%Q.
Proof.
  intros Hne Hall. destruct (Qsum_range lo hi qs Hall) as [Hlo Hhi].
  assert (Hpos : (0 < inject_Z (Z.of_nat (length qs)))%Q).
  { apply (proj2 (inject_Z_pos _)). destruct qs; [congruence|]. simpl. lia. }
  unfold mean. split.
  - apply Qle_shift_div_l; assumption.
  - apply Qle_shift_div_r; assumption.
Qed.

Lemma rounded_range (m r : Q) :
  (1 <= m <= 10)%Q -> roundedToOneDecimal m r -> (1 <= r <= 10)%Q.
Proof.
  intros [Hlo Hhi] ((k & Hk) & Hrlo & Hrhi).
  assert (Hr : (r == inject_Z k * (1 # 10))%Q) by (rewrite Hk; unfold Qdiv; reflexivity).
  assert (H1 : (inject_Z 9 < inject_Z k)%Q) by (change (inject_Z 9) with 9%Q; lra).
  assert (H2 : (inject_Z k < inject_Z 101)%Q) by (change (inject_Z 101) with 101%Q; lra).
  rewrite <- Zlt_Qlt in H1, H2.
  assert (H3 : (inject_Z 10 <= inject_Z k)%Q) by (rewrite <- Zle_Qle; lia).
  assert (H4 : (inject_Z k <= inject_Z 100)%Q) by (rewrite <- Zle_Qle; lia).
  change (inject_Z 10) with 10%Q in H3. change (inject_Z 100) with 100%Q in H4.
  split; lra.
Qed.

(** X11. In a well-formed library the average that a mutation stores is
    0, when no completed game is rated, or a number between 1 and 10. *)
Theorem averageRating_range (now : Z) (req : Request) (user : User) :
  Forall validEntry (gameLibrary user) ->
  succeeded (fst (handle now req user)) = true ->
  (completedRatings (gameLibrary (snd (handle now req user))) = [] /\
   averageRating (stats (snd (handle now req user))) == 0)%Q \/
  (1 <= averageRating (stats (snd (handle now req user))) <= 10)%Q.
Proof.
  intros Hinv Hok.
  pose proof (handle_valid now req user Hinv) as Hvalid.
  destruct (handle_cases now req user) as [[Hfail _]|[_ [u1 Hu1]]]; [congruence|].
  rewrite Hu1 in *.
  destruct (updateStats_statsOf u1) as (_ & _ & Hnone & Hsome).
  destruct (completedRatings (gameLibrary (updateStats u1))) as [|r rs] eqn:E.
  - left. split; [reflexivity|]. apply Hnone. reflexivity.
  - right. apply (rounded_range (mean (r :: rs))); [|apply Hsome; discriminate].
    apply mean_range; [discriminate|]. rewrite <- E.
    apply completedRatings_range. exact Hvalid.
Qed.

Lemma averageRating_range_witness :
  (completedRatings (gameLibrary (snd (handle 7000 (Remove (Int 1)) sampleUser))) = [] /\
   averageRating (stats (snd (handle 7000 (Remove (Int 1)) sampleUser))) == 0)%Q \/
  (1 <= averageRating (stats (snd (handle 7000 (Remove (Int 1)) sampleUser))) <= 10)%Q.
Proof.
  apply (averageRating_range 7000 (Remove (Int 1)) sampleUser).
  - exact sampleUser_valid.
  - reflexivity.
Defined.

(** ** The first few of a sorted array *)

Lemma StronglySorted_app_inv {A : Type} (R : A -> A -> Prop) (l1 l2 : list A) :
  StronglySorted R (l1 ++ l2) ->
  StronglySorted R l1 /\ forall x y, In x l1 -> In y l2 -> R x y.
Proof.
  induction l1 as [|a l1 IH]; simpl; intros Hs.
  - split; [constructor|]. intros x y [].
  - apply StronglySorted_inv in Hs. destruct Hs as [Hs Ha].
    destruct (IH Hs) as [IH1 IH2]. split.
    + constructor; [exact IH1|]. rewrite List.Forall_forall in Ha |- *.
      intros x Hx. apply Ha. apply in_or_app. left. exact Hx.
    + intros x y [<-|Hx] Hy; [|apply IH2; assumption].
      rewrite List.Forall_forall in Ha. apply Ha. apply in_or_app. right. exact Hy.
Qed.

Lemma firstn_sorted_topOf {A : Type} (comparefn : A -> A -> Q) (k : nat) (l : list A) :
  consistent comparefn ->
  topOf (notAfter comparefn) k l (firstn k (Array_sort comparefn l)).
Proof.
  intros Hc. exists (skipn k (Array_sort comparefn l)).
  pose proof (Array_sort_sorted comparefn Hc l) as Hs.
  rewrite <- (firstn_skipn k (Array_sort comparefn l)) in Hs.
  destruct (StronglySorted_app_inv _ _ _ Hs) as [Hs1 Hs2].
  split; [rewrite firstn_skipn; apply Array_sort_Permutation|].
  split; [|split; assumption].
  rewrite length_firstn, <- (Permutation_length (Array_sort_Permutation comparefn l)).
  reflexivity.
Qed.

Lemma Array_sort_ext {A : Type} (c1 c2 : A -> A -> Q) (l : list A) :
  (forall a b, Qle_bool (c1 a b) 0 = Qle_bool (c2 a b) 0) ->
  Array_sort c1 l = Array_sort c2 l.
Proof.
  intros Hext. induction l as [|x l IH]; simpl; [reflexivity|]. rewrite IH.
  generalize (Array_sort c2 l). intros s. induction s as [|y s IHs]; simpl; [reflexivity|].
  rewrite Hext, IHs. reflexivity.
Qed.

(** Sorting does nothing to an array whose elements all compare equal. *)
Lemma Array_sort_all_tied {A : Type} (comparefn : A -> A -> Q) (l : list A) :
  (forall a b, In a l -> In b l -> Qle_bool (comparefn a b) 0 = true) ->
  Array_sort comparefn l = l.
Proof.
  induction l as [|x l IH]; intros Htied; simpl; [reflexivity|].
  rewrite IH by (intros a b Ha Hb; apply Htied; right; assumption).
  destruct l as [|y l]; simpl; [reflexivity|].
  rewrite (Htied x y) by (simpl; auto). reflexivity.
Qed.

Lemma Array_sort_sorted_id {A : Type} (comparefn : A -> A -> Q) (l : list A) :
  consistent comparefn ->
  StronglySorted (notAfter comparefn) l -> Array_sort comparefn l = l.
Proof.
  intros Hc Hs. symmetry. apply stableSortOf_unique; [exact Hc|].
  split; [apply Permutation_refl|]. split; [exact Hs|]. reflexivity.
Qed.

(** ** The stats route *)



Lemma genreKeys_Permutation (l l' : list GameEntry) :
  Permutation l l' -> Permutation (genreKeys l) (genreKeys l').
Proof. intros H. unfold genreKeys. apply Permutation_flat_map. exact H. Qed.

Lemma ordinaryGenres_sorted (comparefn : GameEntry -> GameEntry -> Q) (lib : list GameEntry) :
  ordinaryGenres lib -> forallb ordinaryKey (genreKeys (Array_sort comparefn lib)) = true.
Proof.
  unfold ordinaryGenres. rewrite !forallb_forall. intros H k Hk. apply H.
  apply (Permutation_in k
           (Permutation_sym (genreKeys_Permutation _ _ (Array_sort_Permutation comparefn lib)))).
  exact Hk.
Qed.

(** What the handler returns on a loaded document with ordinary genres. *)
Lemma getStats_returns (user : User) (doc : UserDoc) (h : Store) :
  loaded user doc h ->
  ordinaryGenres (gameLibrary user) ->
  getStats doc h
  = Some (Sent 200
            {| rep_totalGames := length (gameLibrary user);
               rep_playing := countStatus "playing" (gameLibrary user);
               rep_completed := countStatus "completed" (gameLibrary user);
               rep_dropped := countStatus "dropped" (gameLibrary user);
               rep_planToPlay := countStatus "plan-to-play" (gameLibrary user);
               rep_averageRating := averageRating (stats user);
               rep_topGenres := topFive (countGenres (Array_sort newestFirst (gameLibrary user)));
               rep_recentActivity :=
                 map activity (firstn 5 (Array_sort newestFirst (gameLibrary user))) |},
          <[doc_gameLibrary doc := Array_sort newestFirst (gameLibrary user)]> h).
Proof.
  intros [Hlook Hstats] Hord. unfold getStats. rewrite Hlook. simpl.
  rewrite (ordinaryGenres_sorted newestFirst _ Hord), Hstats. reflexivity.
Qed.



Lemma taggedDoc_loaded : loaded taggedUser taggedDoc taggedStore.
Proof. split; reflexivity. Qed.


(** A status outside the four is counted in the total only. *)
Example stats_counts_unknown_status :
  let lib := [entry 1 "Hades" "archived" None 1000 None] in
  (countStatus "playing" lib + countStatus "completed" lib
   + countStatus "dropped" lib + countStatus "plan-to-play" lib)%nat = 0%nat /\
  length lib = 1%nat.
Proof. split; reflexivity. Qed.



Example stats_recent_activity_sample :
  (fun r => match r with
            | Some (Sent _ rep, _) => map act_name (rep_recentActivity rep)
            | _ => []
            end) (getStats taggedDoc taggedStore)
  = ["Portal"; "Celeste"; "Hades"].
Proof. reflexivity. Qed.



(** ** Counting genres *)

Lemma countOf_bump_same (k : string) (obj : Counts) :
  countOf k (bump k obj) = (countOf k obj + 1)%nat.
Proof.
  unfold countOf. induction obj as [|[k' n] obj IH]; simpl.
  - rewrite String.eqb_refl. reflexivity.
  - destruct (k' =? k) eqn:E; simpl; rewrite E; [reflexivity|exact IH].
Qed.

Lemma countOf_bump_other (k k' : string) (obj : Counts) :
  k' <> k -> countOf k' (bump k obj) = countOf k' obj.
Proof.
  intros Hne. unfold countOf. induction obj as [|[k0 n] obj IH]; simpl.
  - apply String.eqb_neq in Hne. rewrite String.eqb_sym, Hne. reflexivity.
  - destruct (k0 =? k) eqn:E; simpl.
    + apply String.eqb_eq in E. subst k0.
      apply String.eqb_neq in Hne. rewrite String.eqb_sym, Hne. reflexivity.
    + destruct (k0 =? k'); [reflexivity|exact IH].
Qed.

Lemma bump_keys (k k' : string) (obj : Counts) :
  In k' (map fst (bump k obj)) <-> k' = k \/ In k' (map fst obj).
Proof.
  induction obj as [|[k0 n] obj IH]; simpl.
  - intuition.
  - destruct (k0 =? k) eqn:E; simpl.
    + apply String.eqb_eq in E. subst k0. intuition.
    + rewrite IH. intuition.
Qed.

Lemma bump_NoDup (k : string) (obj : Counts) :
  List.NoDup (map fst obj) -> List.NoDup (map fst (bump k obj)).
Proof.
  induction obj as [|[k0 n] obj IH]; simpl; intros Hnd.
  - constructor; [intros []|constructor].
  - inversion Hnd as [|? ? Hnin Hnd']; subst.
    destruct (k0 =? k) eqn:E; simpl.
    + constructor; assumption.
    + constructor; [|apply IH; exact Hnd'].
      rewrite bump_keys. intros [->|Hin]; [|contradiction].
      rewrite String.eqb_refl in E. discriminate.
Qed.

Lemma tally_countOf (keys : list string) (obj : Counts) (k : string) :
  countOf k (fold_left (fun obj k => bump k obj) keys obj)
  = (countOf k obj + count_occ string_dec keys k)%nat.
Proof.
  revert obj. induction keys as [|k0 keys IH]; intros obj; simpl; [lia|].
  rewrite IH. destruct (string_dec k0 k) as [->|Hne].
  - rewrite countOf_bump_same. lia.
  - rewrite countOf_bump_other by congruence. lia.
Qed.

Lemma tally_keys (keys : list string) (obj : Counts) (k : string) :
  In k (map fst (fold_left (fun obj k => bump k obj) keys obj))
  <-> In k keys \/ In k (map fst obj).
Proof.
  revert obj. induction keys as [|k0 keys IH]; intros obj; simpl; [intuition|].
  rewrite IH, bump_keys. intuition.
Qed.

Lemma tally_NoDup (keys : list string) (obj : Counts) :
  List.NoDup (map fst obj) ->
  List.NoDup (map fst (fold_left (fun obj k => bump k obj) keys obj)).
Proof.
  revert obj. induction keys as [|k0 keys IH]; intros obj Hnd; simpl; [exact Hnd|].
  apply IH. apply bump_NoDup. exact Hnd.
Qed.

Lemma countGenres_tally (games : list GameEntry) :
  countGenres games = fold_left (fun obj k => bump k obj) (genreKeys games) [].
Proof.
  unfold countGenres, genreKeys. generalize (@nil (string * nat)).
  induction games as [|g games IH]; intros obj; simpl; [reflexivity|].
  rewrite fold_left_app, IH. f_equal.
  generalize obj. induction (genres g) as [|x xs IHx]; intros o; simpl; [reflexivity|].
  apply IHx.
Qed.

Lemma countOf_In (k : string) (n : nat) (obj : Counts) :
  List.NoDup (map fst obj) -> In (k, n) obj -> countOf k obj = n.
Proof.
  unfold countOf. induction obj as [|[k0 n0] obj IH]; simpl; intros Hnd Hin; [contradiction|].
  inversion Hnd as [|? ? Hnin Hnd']; subst.
  destruct Hin as [[= -> ->]|Hin].
  - rewrite String.eqb_refl. reflexivity.
  - destruct (k0 =? k) eqn:E; [|apply IH; assumption].
    apply String.eqb_eq in E. subst k0. exfalso. apply Hnin.
    apply in_map_iff. exists (k, n). auto.
Qed.

Lemma In_countOf (k : string) (obj : Counts) :
  In k (map fst obj) -> In (k, countOf k obj) obj.
Proof.
  unfold countOf. induction obj as [|[k0 n0] obj IH]; simpl; [intros []|].
  destruct (k0 =? k) eqn:E.
  - apply String.eqb_eq in E. subst k0. simpl. auto.
  - intros [->|Hin]; [rewrite String.eqb_refl in E; discriminate|].
    right. apply IH. exact Hin.
Qed.

Lemma setProperty_fresh (k : string) (v : nat) (obj : Counts) :
  ~ In k (map fst obj) -> setProperty k v obj = (obj ++ [(k, v)])%list.
Proof.
  induction obj as [|[k0 n0] obj IH]; simpl; intros Hnin; [reflexivity|].
  destruct (k0 =? k) eqn:E.
  - apply String.eqb_eq in E. subst k0. exfalso. apply Hnin. auto.
  - rewrite IH; [reflexivity|]. intros Hin. apply Hnin. auto.
Qed.

(** Copying entries with distinct keys into an empty object keeps them. *)
Lemma fromEntries_distinct (entries acc : Counts) :
  List.NoDup (map fst (acc ++ entries)) ->
  fold_left (fun obj e => setProperty (fst e) (snd e) obj) entries acc = (acc ++ entries)%list.
Proof.
  revert acc. induction entries as [|[k v] entries IH]; intros acc Hnd; simpl.
  - rewrite app_nil_r. reflexivity.
  - assert (Hfresh : ~ In k (map fst acc)).
    { rewrite map_app in Hnd. simpl in Hnd. apply List.NoDup_remove_2 in Hnd.
      intros Hin. apply Hnd. apply in_or_app. left. exact Hin. }
    rewrite (setProperty_fresh k v acc Hfresh), IH.
    + rewrite <- app_assoc. reflexivity.
    + rewrite <- app_assoc. exact Hnd.
Qed.

Lemma byCountDescending_consistent : consistent byCountDescending.
Proof. split; intros *; unfold byCountDescending; intros; lra. Qed.

Lemma byCountDescending_notAfter (x y : string * nat) :
  notAfter byCountDescending x y <-> (snd y <= snd x)%nat.
Proof.
  unfold notAfter, byCountDescending.
  rewrite <- inject_Z_sub, inject_Z_nonpos. lia.
Qed.

Lemma NoDup_firstn {A : Type} (k : nat) (l : list A) :
  List.NoDup l -> List.NoDup (firstn k l).
Proof.
  intros Hnd. rewrite <- (firstn_skipn k l) in Hnd.
  apply List.NoDup_app_remove_r in Hnd. exact Hnd.
Qed.

Lemma topFive_firstn (counts : Counts) :
  List.NoDup (map fst counts) ->
  topFive counts = firstn 5 (Array_sort byCountDescending counts).
Proof.
  intros Hnd. unfold topFive. apply (fromEntries_distinct _ []). simpl.
  rewrite <- firstn_map. apply NoDup_firstn.
  eapply Permutation_NoDup; [|exact Hnd].
  apply Permutation_map. apply Array_sort_Permutation.
Qed.

(** X15. GET /stats: [topGenres] holds at most five genres, each once,
    with the number of times the genre occurs in the library, in
    non-increasing order of that number; a genre of the library is left out
    only when five are listed, and then it occurs no more often than any
    listed one. *)
Theorem stats_top_genres (user : User) (doc : UserDoc) (h : Store) :
  loaded user doc h ->
  ordinaryGenres (gameLibrary user) ->
  exists rep h',
    getStats doc h = Some (Sent 200 rep, h') /\
    (length (rep_topGenres rep) <= 5)%nat /\
    List.NoDup (map fst (rep_topGenres rep)) /\
    (forall k n, In (k, n) (rep_topGenres rep) ->
                 n = occurrences k (gameLibrary user) /\ (1 <= n)%nat) /\
    StronglySorted (fun x y => (snd y <= snd x)%nat) (rep_topGenres rep) /\
    (forall k, In k (genreKeys (gameLibrary user)) ->
               ~ In k (map fst (rep_topGenres rep)) ->
               length (rep_topGenres rep) = 5%nat /\
               forall e, In e (rep_topGenres rep) ->
                         (occurrences k (gameLibrary user) <= snd e)%nat).
Proof.
  intros Hload Hord. eexists. eexists.
  split; [exact (getStats_returns user doc h Hload Hord)|]. cbn [rep_topGenres].
  set (games := Array_sort newestFirst (gameLibrary user)).
  set (counts := countGenres games).
  assert (Hkeys : Permutation (genreKeys (gameLibrary user)) (genreKeys games))
    by (apply genreKeys_Permutation, Array_sort_Permutation).
  assert (Hocc : forall k, count_occ string_dec (genreKeys games) k
                           = occurrences k (gameLibrary user)).
  { intros k. unfold occurrences. symmetry.
    apply (proj1 (Permutation_count_occ string_dec _ _) Hkeys). }
  assert (Hnd : List.NoDup (map fst counts)).
  { unfold counts. rewrite countGenres_tally. apply tally_NoDup. constructor. }
  assert (Hcount : forall k, countOf k counts = occurrences k (gameLibrary user)).
  { intros k. unfold counts. rewrite countGenres_tally, tally_countOf. simpl. apply Hocc. }
  assert (Hin : forall k, In k (map fst counts) <-> In k (genreKeys (gameLibrary user))).
  { intros k. unfold counts. rewrite countGenres_tally, tally_keys. simpl. split.
    - intros [Hk|[]]. apply (Permutation_in k (Permutation_sym Hkeys) Hk).
    - intros Hk. left. apply (Permutation_in k Hkeys Hk). }
  rewrite (topFive_firstn counts Hnd).
  set (sorted := Array_sort byCountDescending counts).
  pose proof (Array_sort_Permutation byCountDescending counts) as Hperm. fold sorted in Hperm.
  pose proof (Array_sort_sorted byCountDescending byCountDescending_consistent counts) as Hs.
  fold sorted in Hs.
  rewrite <- (firstn_skipn 5 sorted) in Hs.
  destruct (StronglySorted_app_inv _ _ _ Hs) as [Hs1 Hs2].
  assert (Hmem : forall e, In e (firstn 5 sorted) -> In e counts).
  { intros e He. apply (Permutation_in e (Permutation_sym Hperm)).
    rewrite <- (firstn_skipn 5 sorted). apply in_or_app. left. exact He. }
  split; [apply firstn_le_length|]. split.
  { rewrite <- firstn_map. apply NoDup_firstn.
    eapply Permutation_NoDup; [apply Permutation_map; exact Hperm|exact Hnd]. }
  split.
  { intros k n Hk. apply Hmem in Hk.
    assert (Hn : n = occurrences k (gameLibrary user)).
    { rewrite <- Hcount. symmetry. apply countOf_In; assumption. }
    split; [exact Hn|]. rewrite Hn. unfold occurrences.
    apply (proj1 (count_occ_In string_dec _ _)). apply Hin.
    apply in_map_iff. exists (k, n). auto. }
  split.
  { eapply StronglySorted_iff; [|exact Hs1]. apply byCountDescending_notAfter. }
  intros k Hk Hout.
  assert (Hrest : In (k, countOf k counts) (skipn 5 sorted)).
  { apply Hin in Hk. apply In_countOf in Hk.
    apply (Permutation_in _ Hperm) in Hk.
    rewrite <- (firstn_skipn 5 sorted) in Hk. apply in_app_or in Hk.
    destruct Hk as [Hk|Hk]; [|exact Hk].
    exfalso. apply Hout. apply in_map_iff. exists (k, countOf k counts). auto. }
  split.
  - rewrite length_firstn. apply Nat.min_l.
    destruct (Nat.le_gt_cases 5 (length sorted)) as [Hle|Hgt]; [exact Hle|].
    rewrite skipn_all2 in Hrest by lia. contradiction.
  - intros e He. rewrite <- Hcount.
    apply (byCountDescending_notAfter e (k, countOf k counts)).
    apply Hs2; assumption.
Qed.

Lemma stats_top_genres_witness :
  exists rep h',
    getStats taggedDoc taggedStore = Some (Sent 200 rep, h') /\
    (length (rep_topGenres rep) <= 5)%nat /\
    List.NoDup (map fst (rep_topGenres rep)).
Proof.
  destruct (stats_top_genres taggedUser taggedDoc taggedStore taggedDoc_loaded eq_refl)
    as (rep & h' & Hrun & Hlen & Hnd & _).
  exists rep, h'. split; [exact Hrun|]. split; [exact Hlen|exact Hnd].
Defined.

(** The genres of the sample library, counted in the order the sorted
    library is visited: "Action" occurs twice and leads. *)
Example stats_top_genres_sample :
  (fun r => match r with
            | Some (Sent _ rep, _) => rep_topGenres rep
            | _ => []
            end) (getStats taggedDoc taggedStore)
  = [("Action", 2%nat); ("Puzzle", 1%nat); ("Platformer", 1%nat); ("Indie", 1%nat);
     ("Roguelike", 1%nat)].
Proof. reflexivity. Qed.

(** ** The public profile *)

Lemma lastCompletedFirst_consistent : consistent lastCompletedFirst.
Proof.
  split; intros *; unfold lastCompletedFirst; rewrite ?inject_Z_sub; intros; lra.
Qed.

(** X16. GET /users/:username answers 404 when no account has the name;
    otherwise the profile carries the stored stats, and [recentGames] shows
    the five completed games with the latest completion dates (a missing
    date counting as the epoch), latest first, all of them when fewer than
    five are completed. *)
Theorem public_profile (db : list Account) (name' : string) :
  ((forall u, In u db -> username u <> name') ->
   getPublicProfile db name' = Failed 404 "User not found") /\
  (forall u, find (fun u => username u =? name') db = Some u ->
     exists profile shown,
       getPublicProfile db name' = Sent 200 profile /\
       pp_username profile = name' /\
       pp_stats profile = stats (document u) /\
       pp_recentGames profile = map recentGame shown /\
       topOf (fun a b => (timeOf (dateCompleted b) <= timeOf (dateCompleted a))%Z) 5
             (List.filter (fun game => status game =? "completed")
                          (gameLibrary (document u)))
             shown).
Proof.
  split.
  - intros Hnone. unfold getPublicProfile.
    assert (Hfind : find (fun u => username u =? name') db = None).
    { apply find_None_all. intros y Hy. apply String.eqb_neq. apply Hnone. exact Hy. }
    rewrite Hfind. reflexivity.
  - intros u Hfind. unfold getPublicProfile. rewrite Hfind.
    eexists. eexists. split; [reflexivity|]. cbn.
    split.
    { apply find_some in Hfind. destruct Hfind as [_ Heq].
      apply String.eqb_eq in Heq. exact Heq. }
    split; [reflexivity|]. split; [reflexivity|].
    destruct (firstn_sorted_topOf lastCompletedFirst 5
                (List.filter (fun game => status game =? "completed")
                             (gameLibrary (document u)))
                lastCompletedFirst_consistent)
      as (rest & Hperm & Hlen & Hsorted & Hdom).
    assert (HR : forall a b, notAfter lastCompletedFirst a b
                             <-> (timeOf (dateCompleted b) <= timeOf (dateCompleted a))%Z).
    { intros a b. unfold notAfter, lastCompletedFirst. rewrite inject_Z_nonpos. lia. }
    exists rest. split; [exact Hperm|]. split; [exact Hlen|]. split.
    + eapply StronglySorted_iff; [exact HR|exact Hsorted].
    + intros x y Hx Hy. apply HR. apply Hdom; assumption.
Qed.

Lemma public_profile_witness :
  getPublicProfile sampleAccounts "eve" = Failed 404 "User not found" /\
  exists profile shown,
    getPublicProfile sampleAccounts "bob" = Sent 200 profile /\
    pp_username profile = "bob" /\
    pp_stats profile = stats tetrisUser /\
    pp_recentGames profile = map recentGame shown /\
    topOf (fun a b => (timeOf (dateCompleted b) <= timeOf (dateCompleted a))%Z) 5
          (List.filter (fun game => status game =? "completed") (gameLibrary tetrisUser))
          shown.
Proof.
  split.
  - apply (proj1 (public_profile sampleAccounts "eve")).
    intros u [<-|[<-|[]]]; discriminate.
  - apply (proj2 (public_profile sampleAccounts "bob")
                 {| username := "bob"; bio := EmptyString; favoriteGenres := []; joinDate := 600;
                    document := tetrisUser |}).
    reflexivity.
Defined.

(** X17. On every library built through the routes no entry has a
    completion date, so the profile's sort has nothing to order by:
    [recentGames] shows the first five completed games in library order,
    that is the five that were added first, whenever they were completed. *)
Theorem public_profile_shows_oldest (reqs : list (Z * Request)) (user : User) :
  Forall (fun g => dateCompleted g = None) (gameLibrary user) ->
  recentGames (gameLibrary (run reqs user))
  = map recentGame
        (firstn 5 (List.filter (fun game => status game =? "completed")
                               (gameLibrary (run reqs user)))).
Proof.
  intros Hnone. pose proof (dateCompleted_never_set reqs user Hnone) as Hrun.
  unfold recentGames. rewrite Array_sort_all_tied; [reflexivity|].
  rewrite List.Forall_forall in Hrun.
  intros a b Ha Hb. apply filter_In in Ha. apply filter_In in Hb.
  unfold lastCompletedFirst.
  rewrite (Hrun a (proj1 Ha)), (Hrun b (proj1 Hb)). reflexivity.
Qed.

Lemma public_profile_shows_oldest_witness :
  recentGames
    (gameLibrary (run [(5000%Z, Add (addBody 7 "Doom" "playing"));
                       (6000%Z, Update (Int 7) (updateBody (Value "completed") Absent Absent))]
                      sampleUser))
  = map recentGame
        (firstn 5 (List.filter (fun game => status game =? "completed")
           (gameLibrary (run [(5000%Z, Add (addBody 7 "Doom" "playing"));
                              (6000%Z, Update (Int 7)
                                         (updateBody (Value "completed") Absent Absent))]
                             sampleUser)))).
Proof.
  apply (public_profile_shows_oldest
           [(5000%Z, Add (addBody 7 "Doom" "playing"));
            (6000%Z, Update (Int 7) (updateBody (Value "completed") Absent Absent))]
           sampleUser).
  simpl. repeat constructor.
Defined.

(** Six games added in turn and completed in reverse order: the game
    completed last is the one the profile leaves out. *)
Example public_profile_oldest_sample :
  let add id nm := (1000 * id, Add (addBody id nm "playing"))%Z in
  let complete t id := (t, Update (Int id) (updateBody (Value "completed") Absent Absent)) in
  map rg_name
      (recentGames
         (gameLibrary
            (run [add 1%Z "A"; add 2%Z "B"; add 3%Z "C"; add 4%Z "D"; add 5%Z "E"; add 6%Z "F";
                  complete 7001%Z 1%Z; complete 7002%Z 2%Z; complete 7003%Z 3%Z;
                  complete 7004%Z 4%Z; complete 7005%Z 5%Z; complete 7006%Z 6%Z]
                 newUser)))
  = ["A"; "B"; "C"; "D"; "E"].
Proof. reflexivity. Qed.

(** ** Listing twice *)

(** X18. Listing again with the same query returns the same entries. After
    a listing without a status filter the library array is already in the
    order of the listing, and the second listing leaves the store as the
    first one left it. *)
Theorem listing_repeat (localeCompare : string -> string -> Z) (q : Query)
        (arr : loc) (h : Store) (lib : list GameEntry) :
  consistentCollation localeCompare ->
  h !! arr = Some lib ->
  exists games h1 h2,
    getLibrary localeCompare q arr h = Some (respond 200 (JGames games), h1) /\
    getLibrary localeCompare q arr h1 = Some (respond 200 (JGames games), h2) /\
    (truthy (q_status q) = false -> h2 = h1).
Proof.
  intros Hlc Hlook.
  pose proof (comparator_consistent localeCompare (default "dateAdded" (q_sortBy q))
                (default "desc" (q_order q)) Hlc) as Hc.
  destruct (truthy (q_status q)) eqn:Ht.
  - eexists. eexists. eexists.
    split; [apply getLibrary_filtered; eassumption|].
    split; [|discriminate].
    apply getLibrary_filtered; [|exact Ht].
    rewrite lookup_insert_ne; [exact Hlook|].
    intros Heq. pose proof (fresh_unallocated h) as Hf. rewrite Heq in Hf. congruence.
  - eexists. eexists. eexists.
    split; [apply getLibrary_unfiltered; eassumption|].
    assert (Hagain : getLibrary localeCompare q arr
                       (<[arr := Array_sort (comparator localeCompare
                                               (default "dateAdded" (q_sortBy q))
                                               (default "desc" (q_order q))) lib]> h)
                     = Some (respond 200
                               (JGames (Array_sort (comparator localeCompare
                                                      (default "dateAdded" (q_sortBy q))
                                                      (default "desc" (q_order q))) lib)),
                             <[arr := Array_sort (comparator localeCompare
                                                    (default "dateAdded" (q_sortBy q))
                                                    (default "desc" (q_order q))) lib]> h)).
    { rewrite (getLibrary_unfiltered localeCompare q arr _ _ (lookup_insert_eq _ _ _) Ht).
      rewrite (Array_sort_sorted_id _ _ Hc (Array_sort_sorted _ Hc lib)).
      rewrite insert_insert_eq. reflexivity. }
    split; [exact Hagain|]. reflexivity.
Qed.

Lemma listing_repeat_witness :
  exists games h1 h2,
    getLibrary codeUnitOrder (query None (Some "name") (Some "asc")) 1%positive sampleStore
    = Some (respond 200 (JGames games), h1) /\
    getLibrary codeUnitOrder (query None (Some "name") (Some "asc")) 1%positive h1
    = Some (respond 200 (JGames games), h2) /\
    (truthy (q_status (query None (Some "name") (Some "asc"))) = false -> h2 = h1).
Proof.
  apply (listing_repeat codeUnitOrder (query None (Some "name") (Some "asc")) 1%positive
           sampleStore [hades; celeste; portal] codeUnitOrder_consistent eq_refl).
Defined.

(** ** Filtering and sorting *)

Lemma filter_swap {A : Type} (p q : A -> bool) (l : list A) :
  List.filter p (List.filter q l) = List.filter q (List.filter p l).
Proof.
  induction l as [|x l IH]; simpl; [reflexivity|].
  destruct (q x) eqn:Hq, (p x) eqn:Hp; simpl; rewrite ?Hq, ?Hp, IH; reflexivity.
Qed.

Lemma filter_StronglySorted {A : Type} (R : A -> A -> Prop) (p : A -> bool) (l : list A) :
  StronglySorted R l -> StronglySorted R (List.filter p l).
Proof.
  induction 1 as [|a l Hs IH Ha]; simpl; [constructor|].
  destruct (p a); [|exact IH]. constructor; [exact IH|].
  rewrite List.Forall_forall in Ha |- *. intros x Hx. apply Ha.
  apply filter_In in Hx. tauto.
Qed.

(** A stable sort commutes with a filter. *)
Lemma Array_sort_filter {A : Type} (comparefn : A -> A -> Q) (p : A -> bool) (l : list A) :
  consistent comparefn ->
  Array_sort comparefn (List.filter p l) = List.filter p (Array_sort comparefn l).
Proof.
  intros Hc. apply (sorted_stable_unique comparefn Hc).
  - apply Array_sort_sorted. exact Hc.
  - apply filter_StronglySorted. apply Array_sort_sorted. exact Hc.
  - intros a. rewrite Array_sort_stable by exact Hc.
    rewrite (filter_swap (tied comparefn a) p (Array_sort comparefn l)).
    rewrite Array_sort_stable by exact Hc. apply filter_swap.
Qed.

(** The entries a listing returns. *)
Lemma getLibrary_games (localeCompare : string -> string -> Z) (q : Query)
      (arr : loc) (h : Store) (lib : list GameEntry) :
  h !! arr = Some lib ->
  exists h',
    getLibrary localeCompare q arr h
    = Some (respond 200
              (JGames (Array_sort (comparator localeCompare (default "dateAdded" (q_sortBy q))
                                              (default "desc" (q_order q)))
                                  (matching (q_status q) lib))),
            h').
Proof.
  intros Hlook. destruct (truthy (q_status q)) eqn:Ht.
  - rewrite matching_truthy by assumption. eexists. apply getLibrary_filtered; assumption.
  - rewrite matching_falsy by assumption. eexists. apply getLibrary_unfiltered; assumption.
Qed.

(** X19. A listing with a status filter returns the listing without the
    filter (same sort key and order) with the entries of other statuses
    taken out: filtering first, as the handler does, and filtering the
    sorted list give the same entries in the same order. *)
Theorem filtered_listing_of_unfiltered
        (localeCompare : string -> string -> Z) (s : string) (sortBy order : option string)
        (arr : loc) (h : Store) (lib : list GameEntry) :
  consistentCollation localeCompare ->
  h !! arr = Some lib ->
  s <> EmptyString ->
  exists all h1 h2,
    getLibrary localeCompare (query None sortBy order) arr h
    = Some (respond 200 (JGames all), h1) /\
    getLibrary localeCompare (query (Some s) sortBy order) arr h
    = Some (respond 200 (JGames (List.filter (fun g => status g =? s) all)), h2).
Proof.
  intros Hlc Hlook Hs.
  destruct (getLibrary_games localeCompare (query None sortBy order) arr h lib Hlook)
    as [h1 H1].
  destruct (getLibrary_games localeCompare (query (Some s) sortBy order) arr h lib Hlook)
    as [h2 H2].
  eexists. exists h1, h2. split; [exact H1|]. rewrite H2.
  cbn [q_status q_sortBy q_order query matching].
  apply String.eqb_neq in Hs. rewrite Hs.
  rewrite Array_sort_filter; [reflexivity|].
  apply comparator_consistent. exact Hlc.
Qed.

Lemma filtered_listing_of_unfiltered_witness :
  exists all h1 h2,
    getLibrary codeUnitOrder (query None (Some "name") (Some "asc")) 1%positive sampleStore
    = Some (respond 200 (JGames all), h1) /\
    getLibrary codeUnitOrder (query (Some "completed") (Some "name") (Some "asc"))
               1%positive sampleStore
    = Some (respond 200 (JGames (List.filter (fun g => status g =? "completed") all)), h2).
Proof.
  apply (filtered_listing_of_unfiltered codeUnitOrder "completed" (Some "name") (Some "asc")
           1%positive sampleStore [hades; celeste; portal] codeUnitOrder_consistent eq_refl).
  discriminate.
Defined.

(** ** Ascending and descending *)

Lemma StronglySorted_rev {A : Type} (R : A -> A -> Prop) (l : list A) :
  StronglySorted R l -> StronglySorted (fun a b => R b a) (rev l).
Proof.
  induction 1 as [|a l Hs IH Ha]; simpl; [constructor|].
  assert (Hgen : forall l1, StronglySorted (fun a b => R b a) l1 ->
                            Forall (fun x => R a x) l1 ->
                            StronglySorted (fun a b => R b a) (l1 ++ [a])).
  { clear. induction l1 as [|x l1 IH1]; simpl; intros Hs Hall.
    - constructor; constructor.
    - apply StronglySorted_inv in Hs. destruct Hs as [Hs Hx].
      inversion Hall as [|? ? Hax Hall']; subst.
      constructor; [apply IH1; assumption|].
      apply Forall_app. split; [exact Hx|]. constructor; [exact Hax|constructor]. }
  apply Hgen; [exact IH|].
  rewrite List.Forall_forall in Ha |- *. intros x Hx. apply Ha. apply in_rev. exact Hx.
Qed.

Lemma rev_all_equal {A : Type} (l : list A) :
  (forall x y, In x l -> In y l -> x = y) -> rev l = l.
Proof.
  induction l as [|a l IH]; intros Heq; simpl; [reflexivity|].
  rewrite IH by (intros x y Hx Hy; apply Heq; right; assumption).
  clear IH. induction l as [|b l IH]; simpl; [reflexivity|].
  assert (Hab : a = b) by (apply Heq; simpl; auto). subst b.
  f_equal. apply IH. intros x y Hx Hy. apply Heq; simpl in *; tauto.
Qed.

(** Without ties, sorting with the negated callback is sorting and
    reversing. *)
Lemma Array_sort_opp_rev {A : Type} (comparefn : A -> A -> Q) (l : list A) :
  consistent comparefn ->
  (forall x y, In x l -> In y l -> tied comparefn x y = true -> x = y) ->
  Array_sort (fun a b => - comparefn a b)%Q l = rev (Array_sort comparefn l).
Proof.
  intros Hc Huntied.
  pose proof (consistent_opp comparefn Hc) as Hc'.
  assert (Htied : forall a x, tied (fun a b => (- comparefn a b)%Q) a x = tied comparefn a x).
  { intros a x. unfold tied.
    destruct (Qeq_bool (- comparefn a x) 0) eqn:E1, (Qeq_bool (comparefn a x) 0) eqn:E2;
      try reflexivity.
    - apply Qeq_bool_iff in E1. assert (H : (comparefn a x == 0)%Q) by lra.
      apply Qeq_bool_iff in H. congruence.
    - apply Qeq_bool_iff in E2. assert (H : (- comparefn a x == 0)%Q) by lra.
      apply Qeq_bool_iff in H. congruence. }
  apply (sorted_stable_unique _ Hc').
  - apply Array_sort_sorted. exact Hc'.
  - eapply StronglySorted_iff;
      [|apply StronglySorted_rev; apply (Array_sort_sorted comparefn Hc l)].
    intros a b. unfold notAfter.
    pose proof (flip_pos _ Hc a b) as P1. pose proof (flip_neg _ Hc a b) as N1.
    pose proof (flip_zero _ Hc a b) as Z1.
    pose proof (flip_pos _ Hc b a) as P2. pose proof (flip_neg _ Hc b a) as N2.
    pose proof (flip_zero _ Hc b a) as Z2.
    destruct (Q_dec (comparefn a b) 0) as [[Hab|Hab]|Hab];
      destruct (Q_dec (comparefn b a) 0) as [[Hba|Hba]|Hba];
      try specialize (P1 Hab); try specialize (N1 Hab); try specialize (Z1 Hab);
      try specialize (P2 Hba); try specialize (N2 Hba); try specialize (Z2 Hba);
      split; intros; lra.
  - intros a. rewrite Array_sort_stable by exact Hc'.
    rewrite List.filter_rev.
    rewrite (List.filter_ext _ _ (Htied a) l).
    rewrite (List.filter_ext _ _ (Htied a) (Array_sort comparefn l)).
    rewrite Array_sort_stable by exact Hc.
    symmetry. apply rev_all_equal.
    intros x y Hx Hy. apply filter_In in Hx. apply filter_In in Hy.
    destruct Hx as [Hx Hax], Hy as [Hy Hay].
    apply Huntied; try assumption.
    apply (notAfter_both_tied comparefn Hc).
    + apply (tied_notAfter comparefn Hc a); assumption.
    + apply (tied_notAfter comparefn Hc a); assumption.
Qed.

(** X20. When no two selected entries are equal on the sort key, the
    descending listing is the ascending listing reversed. (With equal keys
    it is not: tied entries keep their library order in both directions.) *)
Theorem descending_is_reverse
        (localeCompare : string -> string -> Z) (st sortBy order : option string)
        (arr : loc) (h : Store) (lib : list GameEntry) :
  consistentCollation localeCompare ->
  h !! arr = Some lib ->
  default "desc" order <> "asc" ->
  (forall x y, In x (matching st lib) -> In y (matching st lib) ->
               keyTied localeCompare (default "dateAdded" sortBy) x y -> x = y) ->
  exists up h1 h2,
    getLibrary localeCompare (query st sortBy (Some "asc")) arr h
    = Some (respond 200 (JGames up), h1) /\
    getLibrary localeCompare (query st sortBy order) arr h
    = Some (respond 200 (JGames (rev up)), h2).
Proof.
  intros Hlc Hlook Horder Huntied.
  destruct (getLibrary_games localeCompare (query st sortBy (Some "asc")) arr h lib Hlook)
    as [h1 H1].
  destruct (getLibrary_games localeCompare (query st sortBy order) arr h lib Hlook)
    as [h2 H2].
  eexists. exists h1, h2. split; [exact H1|]. rewrite H2.
  cbn [q_status q_sortBy q_order query default].
  apply String.eqb_neq in Horder.
  rewrite (Array_sort_ext
             (comparator localeCompare (default "dateAdded" sortBy) (default "desc" order))
             (fun a b => - comparator localeCompare (default "dateAdded" sortBy) "asc" a b)%Q).
  - rewrite Array_sort_opp_rev; [reflexivity| |].
    + apply comparator_consistent. exact Hlc.
    + intros x y Hx Hy Hxy. apply Huntied; try assumption.
      apply (comparator_tied localeCompare _ "asc"). exact Hxy.
  - intros a b. unfold comparator. rewrite Horder. reflexivity.
Qed.

Lemma descending_is_reverse_witness :
  exists up h1 h2,
    getLibrary codeUnitOrder (query None (Some "name") (Some "asc")) 1%positive sampleStore
    = Some (respond 200 (JGames up), h1) /\
    getLibrary codeUnitOrder (query None (Some "name") None) 1%positive sampleStore
    = Some (respond 200 (JGames (rev up)), h2).
Proof.
  apply (descending_is_reverse codeUnitOrder None (Some "name") None 1%positive sampleStore
           [hades; celeste; portal] codeUnitOrder_consistent eq_refl).
  - discriminate.
  - simpl. unfold keyTied, codeUnitOrder. simpl.
    intros x y [<-|[<-|[<-|[]]]] [<-|[<-|[<-|[]]]]; simpl; intros H; try reflexivity;
      discriminate H.
Defined.

(** With a tie the two listings are not mirror images: Portal and Tetris
    have the same rating and stand in library order both ways. *)
Example descending_not_reverse_with_ties :
  Array_sort (comparator codeUnitOrder "rating" "desc") [hades; celeste; portal; tetris]
  <> rev (Array_sort (comparator codeUnitOrder "rating" "asc") [hades; celeste; portal; tetris]).
Proof. intros H. vm_compute in H. discriminate H. Qed.
